(** * Semantic-analysis passes of the rune_parser schema compiler

    Shallow embedding of the post-processing pipeline of rune_parser
    ([src/lib.rs], [src/post_processing/*], [src/validation.rs],
    [src/types/*]): constant resolution, type linking, extension merging,
    validation and the encoded-size queries.

    Modelling conventions.
    - Vectors are lists; an index read [v[i]] is [v !! i] and an index out of
      range is a Rust panic, the outcome [Panic] of the result monad below.
    - [u64] / [i64] / [char] values are [Z] (values of those types stay in
      their ranges; the casts the code performs are written out).
    - Finite [f64] values are rationals [Q].
    - Encoded sizes are computed in [N]: the model is faithful for schemas
      whose sizes stay below 2^64.
    - Comments, spans and diagnostics text are left out: they do not
      influence any decision the code takes. *)

From Stdlib Require Import ZArith QArith Bool Lia.
From stdpp Require Import base list strings.

Local Open Scope Z_scope.

(* ------------------------------------------------------------------ *)
(** ** Error taxonomy and the result monad *)

(** [RuneParserError] of [src/lib.rs]. *)
Inductive RuneParserError :=
| InvalidInputPath
| InvalidFilePath
| FileSystemError
| IdentifierCollision
| IndexCollision
| NameCollision
| ValueCollision
| InvalidTotalBitfieldSize
| InvalidEncodedSize
| InvalidArrayType
| InvalidArraySize
| InvalidStructMemberType
| UseOfReservedIndex
| ExtensionMismatch
| UndefinedIdentifier
| MultipleDefinitions
| MultipleRedefinitions
| InvalidNumericValue
| EmptyMessageField
| InvalidTypeUse.

(** A Rust [Result<A, RuneParserError>] computation that may also panic
    (index out of bounds, arithmetic underflow, [unreachable!], stack
    overflow). *)
Inductive Result (A : Type) :=
| Ok (a : A)
| Err (e : RuneParserError)
| Panic.
Arguments Ok {A} a.
Arguments Err {A} e.
Arguments Panic {A}.

Definition res_bind {A B} (r : Result A) (k : A -> Result B) : Result B :=
  match r with
  | Ok a => k a
  | Err e => Err e
  | Panic => Panic
  end.

Notation "'let*' x := c 'in' k" := (res_bind c (fun x => k))
  (at level 200, x name, c at level 100, k at level 200).

(** Rust's [?] over a loop: run [f] on every element in order, threading an
    accumulator, stopping at the first failure. *)
Fixpoint res_fold {A B} (f : B -> A -> Result B) (acc : B) (l : list A) : Result B :=
  match l with
  | [] => Ok acc
  | x :: r => let* acc' := f acc x in res_fold f acc' r
  end.

(** [for x in l { f(x)?; }] *)
Fixpoint res_iter {A} (f : A -> Result unit) (l : list A) : Result unit :=
  match l with
  | [] => Ok tt
  | x :: r => let* _ := f x in res_iter f r
  end.

(** [for x in &mut l { f(x)?; }]: every element rewritten in order. *)
Fixpoint res_map {A} (f : A -> Result A) (l : list A) : Result (list A) :=
  match l with
  | [] => Ok []
  | x :: r => let* x' := f x in let* r' := res_map f r in Ok (x' :: r')
  end.

(** [Vec::swap_remove]: the last element takes the place of element [i];
    panics when [i] is out of range. *)
Definition swap_remove {A} (l : list A) (i : nat) : Result (list A) :=
  if decide (i < length l)%nat then
    match last l with
    | Some x => Ok (take (length l - 1) (<[i := x]> l))
    | None => Panic
    end
  else Panic.

(** [v[i]] *)
Definition index {A} (l : list A) (i : nat) : Result A :=
  match l !! i with Some x => Ok x | None => Panic end.

(* ------------------------------------------------------------------ *)
(** ** Numeric literals ([src/scanner.rs]) and primitives *)

(** [Primitive] of [src/types/primitives.rs]. *)
Inductive Primitive :=
| Bool | Char | I8 | U8 | I16 | U16 | F32 | I32 | U32 | F64 | I64 | U64
| I128 | U128.

Definition Primitive_eqb (a b : Primitive) : bool :=
  match a, b with
  | Bool, Bool | Char, Char | I8, I8 | U8, U8 | I16, I16 | U16, U16
  | F32, F32 | I32, I32 | U32, U32 | F64, F64 | I64, I64 | U64, U64
  | I128, I128 | U128, U128 => true
  | _, _ => false
  end.

(** [Primitive::encoded_max_data_size] *)
Definition encoded_max_data_size (p : Primitive) : N :=
  match p with
  | Bool | Char | I8 | U8 => 1
  | I16 | U16 => 2
  | F32 | I32 | U32 => 4
  | F64 | I64 | U64 => 8
  | I128 | U128 => 16
  end.

Inductive NumeralSystem := Binary | Decimal | Hexadecimal.

(** [NumericLiteral]: a [char] as its code point, [PositiveInteger] a [u64],
    [NegativeInteger] an [i64], [Float] a finite [f64]. *)
Inductive NumericLiteral :=
| AsciiChar (c : Z)
| Boolean (b : bool)
| PositiveInteger (v : Z) (s : NumeralSystem)
| NegativeInteger (v : Z) (s : NumeralSystem)
| Float (f : Q).

Definition u8_max : Z := 255.
Definition u16_max : Z := 65535.
Definition u32_max : Z := 4294967295.
Definition u64_max : Z := 18446744073709551615.
Definition i8_max : Z := 127.
Definition i16_max : Z := 32767.
Definition i32_max : Z := 2147483647.
Definition i64_max : Z := 9223372036854775807.
Definition i8_min : Z := -128.
Definition i16_min : Z := -32768.
Definition i32_min : Z := -2147483648.
Definition i64_min : Z := -9223372036854775808.

(** [c as u8] for a [char], [b as u8] / [b as u64] for a [bool]. *)
Definition char_as_u8 (c : Z) : Z := Z.land c 255.
Definition bool_as_int (b : bool) : Z := if b then 1 else 0.

(** [f.fract() == 0.0] *)
Definition q_is_integral (q : Q) : bool := (Qnum q mod Zpos (Qden q) =? 0).
(** [f as uN] / [f as i64] for an integral [f]: saturating casts. *)
Definition q_trunc (q : Q) : Z := Z.quot (Qnum q) (Zpos (Qden q)).
Definition q_as_unsigned (max : Z) (q : Q) : Z := Z.max 0 (Z.min max (q_trunc q)).
Definition q_as_i64 (q : Q) : Z := Z.max i64_min (Z.min i64_max (q_trunc q)).
Definition Qge0 (q : Q) : bool := Qle_bool 0 q.
Definition Qle0 (q : Q) : bool := Qle_bool q 0.
(** [u64::MAX as f64] is 2^64, [i64::MIN as f64] is -2^63. *)
Definition q_u64_max : Q := inject_Z (2 ^ 64).
Definition q_i64_min : Q := inject_Z (- 2 ^ 63).

(** [impl PartialEq for NumericLiteral] (cross-variant numeric equality). *)
Definition NumericLiteral_eq (self other : NumericLiteral) : bool :=
  match self with
  | AsciiChar a =>
      match other with
      | AsciiChar b => a =? b
      | Boolean b => char_as_u8 a =? bool_as_int b
      | PositiveInteger v _ => if v <=? u8_max then char_as_u8 a =? v else false
      | Float f => if q_is_integral f && Qge0 f
                   then char_as_u8 a =? q_as_unsigned u8_max f else false
      | _ => false
      end
  | Boolean a =>
      match other with
      | AsciiChar b => bool_as_int a =? char_as_u8 b
      | Boolean b => Bool.eqb a b
      | PositiveInteger v _ => bool_as_int a =? v
      | Float f => if q_is_integral f && Qge0 f
                   then bool_as_int a =? q_as_unsigned u64_max f else false
      | _ => false
      end
  | PositiveInteger a _ =>
      match other with
      | AsciiChar b => if a <=? u8_max then a =? char_as_u8 b else false
      | Boolean b => a =? bool_as_int b
      | PositiveInteger b _ => a =? b
      | Float f => if q_is_integral f && Qge0 f && Qle_bool f q_u64_max
                   then a =? q_as_unsigned u64_max f else false
      | _ => false
      end
  | NegativeInteger a _ =>
      match other with
      | NegativeInteger b _ => a =? b
      | Float f => if q_is_integral f && Qle0 f && Qle_bool q_i64_min f
                   then a =? q_as_i64 f else false
      | _ => false
      end
  | Float a =>
      match other with
      | AsciiChar b => if q_is_integral a && Qge0 a && Qle_bool a (inject_Z u8_max)
                       then q_as_unsigned u8_max a =? char_as_u8 b else false
      | Float b => Qeq_bool a b
      | Boolean b => if q_is_integral a && Qge0 a && Qle_bool a q_u64_max
                     then q_as_unsigned u64_max a =? bool_as_int b else false
      | PositiveInteger b _ => if q_is_integral a && Qge0 a && Qle_bool a q_u64_max
                               then q_as_unsigned u64_max a =? b else false
      | NegativeInteger b _ => if q_is_integral a && Qle0 a && Qle_bool q_i64_min a
                               then q_as_i64 a =? b else false
      end
  end.

(** [Range::contains] for a half-open range [lo..hi]. *)
Definition range_contains (lo hi v : Z) : bool := (lo <=? v) && (v <? hi).
Definition q_range_contains (lo hi v : Q) : bool := Qle_bool lo v && negb (Qle_bool hi v).

(** [f32::MAX] as an [f64]. *)
Definition f32_max : Q := inject_Z ((2 ^ 24 - 1) * 2 ^ 104).

(** [FieldType::validate_value] of [src/validation.rs], used for enums.  That
    file names the primitives [Boolean, Char, Byte, UByte, Short, UShort,
    Float, Int, UInt, Double, Long, ULong] (here [Bool, Char, I8, U8, I16,
    U16, F32, I32, U32, F64, I64, U64]) and splits the integer literals by
    numeral base (all bases are handled alike).  The constants are the
    half-open ranges [BYTE_RANGE = i8::MIN..i8::MAX],
    [UBYTE_RANGE = u8::MIN..u8::MAX], and so on.  The remaining type
    ([I128], [U128]) hits [unreachable!]. *)
Definition validate_value (self : Primitive) (value : NumericLiteral) : Result bool :=
  match self with
  | Bool => Ok (match value with Boolean _ => true | _ => false end)
  | Char | I8 =>
      Ok (match value with
          | PositiveInteger v _ => v <=? i8_max
          | NegativeInteger v _ => range_contains i8_min i8_max v
          | _ => false
          end)
  | U8 =>
      Ok (match value with
          | PositiveInteger v _ => range_contains 0 u8_max v
          | _ => false
          end)
  | I16 =>
      Ok (match value with
          | PositiveInteger v _ => v <=? i16_max
          | NegativeInteger v _ => range_contains i16_min i16_max v
          | _ => false
          end)
  | U16 =>
      Ok (match value with
          | PositiveInteger v _ => range_contains 0 u16_max v
          | _ => false
          end)
  | F32 =>
      Ok (match value with
          | Float f => q_range_contains (- f32_max) f32_max f
          | _ => false
          end)
  | I32 =>
      Ok (match value with
          | PositiveInteger v _ => v <=? i32_max
          | NegativeInteger v _ => range_contains i32_min i32_max v
          | _ => false
          end)
  | U32 =>
      Ok (match value with
          | PositiveInteger v _ => range_contains 0 u32_max v
          | _ => false
          end)
  | F64 => Ok (match value with Float _ => true | _ => false end)
  | I64 =>
      Ok (match value with
          | PositiveInteger v _ => v <? i64_max
          | NegativeInteger _ _ => true
          | _ => false
          end)
  | U64 => Ok (match value with PositiveInteger _ _ => true | _ => false end)
  | I128 | U128 => Panic
  end.

(* ------------------------------------------------------------------ *)
(** ** Declarations ([src/types/*]) *)

(** [DefineValue] *)
Inductive DefineValue :=
| DV_NoValue
| DV_NumericLiteral (l : NumericLiteral).

(** [RedefineDefinition] *)
Record RedefineDefinition := mkRedefine {
  redefine_name : string;
  redefine_value : DefineValue
}.

(** [DefineDefinition] *)
Record DefineDefinition := mkDefine {
  define_name : string;
  define_value : DefineValue;
  redefinition : option RedefineDefinition
}.

(** [ArraySize] of [src/types/arrays.rs] *)
Inductive ArraySize :=
| Integer (v : Z) (s : NumeralSystem)
| UserDefinition (d : DefineDefinition).

(** [FieldIndex]: a numeric index, or the verifier alias of index 0. *)
Inductive FieldIndex :=
| Numeric (v : Z)
| Verifier.

(** [FieldIndex::value] *)
Definition FieldIndex_value (i : FieldIndex) : Z :=
  match i with Numeric v => v | Verifier => 0 end.

(** [FieldIndex::is_verifier] *)
Definition is_verifier (i : FieldIndex) : bool :=
  match i with Verifier => true | _ => false end.

(** [impl PartialEq for FieldIndex]: equality of the aliased values. *)
Definition FieldIndex_eq (a b : FieldIndex) : bool :=
  FieldIndex_value a =? FieldIndex_value b.

(** [BitSize] *)
Inductive BitSize := Signed (n : Z) | Unsigned (n : Z).

Definition BitSize_absolute (b : BitSize) : Z :=
  match b with Signed n => n | Unsigned n => n end.

(** [BitfieldMember] ([index] is called [bit_slot] in [src/validation.rs]). *)
Record BitfieldMember := mkBitfieldMember {
  bf_member_identifier : string;
  bf_member_size : BitSize;
  bf_member_index : Z
}.

(** [BitfieldDefinition] *)
Record BitfieldDefinition := mkBitfield {
  bitfield_name : string;
  bitfield_backing_type : Primitive;
  bitfield_members : list BitfieldMember;
  bitfield_reserved_indexes : list Z
}.

(** [EnumMember] *)
Record EnumMember := mkEnumMember {
  enum_member_identifier : string;
  enum_member_value : NumericLiteral
}.

(** [EnumDefinition] *)
Record EnumDefinition := mkEnum {
  enum_name : string;
  enum_backing_type : Primitive;
  enum_members : list EnumMember;
  enum_reserved_values : list NumericLiteral
}.

(** The mutually recursive part: a [UserDefinitionLink] holds a frozen copy
    of a declaration, and declarations hold links in their members.
    [MessageDefinition], [MessageField], [FieldType] are those of
    [src/types/messages.rs]; [Array], [ArrayType] of [src/types/arrays.rs];
    [StructMember.data_type] is the [MemberType] that
    [src/post_processing/process_user_definitions.rs] matches on
    ([Array], [UserDefined], and the primitive case it ignores). *)
Inductive UserDefinitionLink :=
| NoLink
| BitfieldLink (b : BitfieldDefinition)
| EnumLink (e : EnumDefinition)
| MessageLink (m : MessageDefinition)
| StructLink (s : StructDefinition)
with MessageDefinition :=
| mkMessage (name : string) (fields : list MessageField) (reserved_indexes : list FieldIndex)
with MessageField :=
| mkField (identifier : string) (data_type : FieldType) (index : FieldIndex)
with FieldType :=
| FT_Empty
| FT_Primitive (p : Primitive)
| FT_Array (a : Array)
| FT_UserDefined (n : string) (l : UserDefinitionLink)
with Array :=
| mkArray (data_type : ArrayType) (element_count : ArraySize)
with ArrayType :=
| AT_Primitive (p : Primitive)
| AT_UserDefined (n : string) (l : UserDefinitionLink)
with StructDefinition :=
| mkStruct (name : string) (members : list StructMember) (reserved_indexes : list FieldIndex)
with StructMember :=
| mkMember (identifier : string) (data_type : MemberType) (index : FieldIndex)
with MemberType :=
| MT_Primitive (p : Primitive)
| MT_Array (a : Array)
| MT_UserDefined (n : string) (l : UserDefinitionLink).

Definition message_name (m : MessageDefinition) := let 'mkMessage n _ _ := m in n.
Definition message_fields (m : MessageDefinition) := let 'mkMessage _ f _ := m in f.
Definition message_reserved (m : MessageDefinition) := let 'mkMessage _ _ r := m in r.
Definition field_identifier (f : MessageField) := let 'mkField i _ _ := f in i.
Definition field_data_type (f : MessageField) := let 'mkField _ t _ := f in t.
Definition field_index (f : MessageField) := let 'mkField _ _ x := f in x.
Definition struct_name (s : StructDefinition) := let 'mkStruct n _ _ := s in n.
Definition struct_members (s : StructDefinition) := let 'mkStruct _ m _ := s in m.
Definition struct_reserved (s : StructDefinition) := let 'mkStruct _ _ r := s in r.
Definition member_identifier (m : StructMember) := let 'mkMember i _ _ := m in i.
Definition member_data_type (m : StructMember) := let 'mkMember _ t _ := m in t.
Definition member_index (m : StructMember) := let 'mkMember _ _ x := m in x.

(** [Extensions]: per-file bucket of extension fragments, with the four
    buckets that [src/post_processing/process_extensions.rs] reads
    ([bitfields], [enums], [messages], [structs]).  The [Extensions] of
    [src/types/extensions.rs] has no [messages] bucket, and the parser fills
    only the other three, so files as the parser builds them have
    [ext_messages = []]. *)
Record Extensions := mkExtensions {
  ext_bitfields : list BitfieldDefinition;
  ext_enums : list EnumDefinition;
  ext_messages : list MessageDefinition;
  ext_structs : list StructDefinition
}.

(** [Extensions::is_empty] of [src/types/extensions.rs]: it looks at the
    bitfield, enum and struct buckets, the ones that version has. *)
Definition Extensions_is_empty (e : Extensions) : bool :=
  match ext_bitfields e, ext_enums e, ext_structs e with
  | [], [], [] => true
  | _, _, _ => false
  end.

(** [Definitions] (standalone comments left out). *)
Record Definitions := mkDefinitions {
  bitfields : list BitfieldDefinition;
  defines : list DefineDefinition;
  redefines : list RedefineDefinition;
  enums : list EnumDefinition;
  extensions : Extensions;
  includes : list string;
  messages : list MessageDefinition;
  structs : list StructDefinition
}.

(** [RuneFileDescription] *)
Record RuneFileDescription := mkFile {
  relative_path : string;
  file_name : string;
  definitions : Definitions
}.

Definition set_definitions (f : RuneFileDescription) (d : Definitions) : RuneFileDescription :=
  mkFile (relative_path f) (file_name f) d.

(* ------------------------------------------------------------------ *)
(** ** Validator ([src/validation.rs]) *)

Definition count {A} (p : A -> bool) (l : list A) : nat := length (List.filter p l).

(** The names [validate_names] collects, file by file: bitfields, defines,
    enums, structs. *)
Definition collect_names (files : list RuneFileDescription) : list string :=
  flat_map (fun f =>
    let d := definitions f in
    map bitfield_name (bitfields d) ++ map define_name (defines d)
    ++ map enum_name (enums d) ++ map struct_name (structs d)) files.

(** [for i in 0..names_list.len() - 1 { if names_list[i + 1..].contains(..) }]
    once the length is known to be positive (the element at [len - 1] has an
    empty tail, so checking it or not is the same). *)
Fixpoint check_names (l : list string) : Result unit :=
  match l with
  | [] => Ok tt
  | x :: r => if existsb (String.eqb x) r then Err NameCollision else check_names r
  end.

(** [validate_names]: on an empty name list [names_list.len() - 1]
    underflows [usize], a panic. *)
Definition validate_names (files : list RuneFileDescription) : Result unit :=
  let names_list := collect_names files in
  match names_list with
  | [] => Panic
  | _ => check_names names_list
  end.

(** [FieldType::validate_bitfield_size] *)
Definition validate_bitfield_size (self : Primitive) (bitfield_size : Z) : bool :=
  match self with
  | Char | U8 | I8 => bitfield_size <=? 8
  | U16 | I16 => bitfield_size <=? 16
  | U32 | I32 => bitfield_size <=? 32
  | U64 | I64 => bitfield_size <=? 64
  | _ => false
  end.

(** One bitfield of [validate_bitfields]. *)
Definition validate_bitfield (b : BitfieldDefinition) : Result unit :=
  let ms := bitfield_members b in
  let* total_bit_size :=
    res_fold (fun total member =>
      let field_slot := bf_member_index member in
      let identifier := bf_member_identifier member in
      let total := total + BitSize_absolute (bf_member_size member) in
      if Nat.ltb 1 (count (fun x => bf_member_index x =? field_slot) ms) then Err IndexCollision
      else if existsb (fun r => r =? field_slot) (bitfield_reserved_indexes b) then Err UseOfReservedIndex
      else if Nat.ltb 1 (count (fun x => String.eqb (bf_member_identifier x) identifier) ms)
      then Err IdentifierCollision
      else Ok total) 0 ms in
  if validate_bitfield_size (bitfield_backing_type b) total_bit_size then Ok tt
  else Err InvalidTotalBitfieldSize.

Definition validate_bitfields (files : list RuneFileDescription) : Result unit :=
  res_iter (fun f => res_iter validate_bitfield (bitfields (definitions f))) files.

(** One enum of [validate_enums]; [contains] compares each reserved value
    with [value] as [reserved == value]. *)
Definition validate_enum (e : EnumDefinition) : Result unit :=
  let ms := enum_members e in
  res_iter (fun member =>
    let value := enum_member_value member in
    let identifier := enum_member_identifier member in
    if Nat.ltb 1 (count (fun x => NumericLiteral_eq (enum_member_value x) value) ms) then Err ValueCollision
    else if existsb (fun r => NumericLiteral_eq r value) (enum_reserved_values e) then Err UseOfReservedIndex
    else if Nat.ltb 1 (count (fun x => String.eqb (enum_member_identifier x) identifier) ms)
    then Err IdentifierCollision
    else Ok tt) ms.

Definition validate_enums (files : list RuneFileDescription) : Result unit :=
  res_iter (fun f => res_iter validate_enum (enums (definitions f))) files.

(** One struct of [validate_structs] ([field_slot] / [reserved_slots] there
    are the member [index] and the struct's [reserved_indexes]). *)
Definition validate_struct (s : StructDefinition) : Result unit :=
  let ms := struct_members s in
  if Nat.ltb 1 (count (fun x => is_verifier (member_index x)) ms) then Err IndexCollision
  else
    res_iter (fun member =>
      let field_slot := member_index member in
      let identifier := member_identifier member in
      if Nat.ltb 1 (count (fun x => FieldIndex_value (member_index x) =? FieldIndex_value field_slot) ms)
      then Err IndexCollision
      else if existsb (fun r => FieldIndex_eq r field_slot) (struct_reserved s) then Err UseOfReservedIndex
      else if Nat.ltb 1 (count (fun x => String.eqb (member_identifier x) identifier) ms)
      then Err IdentifierCollision
      else Ok tt) ms.

Definition validate_structs (files : list RuneFileDescription) : Result unit :=
  res_iter (fun f => res_iter validate_struct (structs (definitions f))) files.

(** [validate_parsed_files] *)
Definition validate_parsed_files (files : list RuneFileDescription) : Result unit :=
  let* _ := validate_names files in
  let* _ := validate_bitfields files in
  let* _ := validate_enums files in
  validate_structs files.

(* ------------------------------------------------------------------ *)
(** ** Constant Resolver ([src/post_processing/process_defines.rs]) *)

Definition with_defines_messages (d : Definitions) (ds : list DefineDefinition)
    (ms : list MessageDefinition) : Definitions :=
  mkDefinitions (bitfields d) ds (redefines d) (enums d) (extensions d) (includes d) ms (structs d).

(** The duplicate checks: some element has a later element of the same name. *)
Fixpoint has_duplicate {A} (name : A -> string) (l : list A) : bool :=
  match l with
  | [] => false
  | x :: r => existsb (fun y => String.eqb (name x) (name y)) r || has_duplicate name r
  end.

(** [for i in 0..redefines_list.len() { if define.name == redefines_list[i].name
    { define.redefinition = Some(redefines_list[i].clone());
      redefines_list.swap_remove(i); } }]: the range is fixed when the loop
    starts, the list shrinks under it.  [k] counts the iterations left. *)
Fixpoint attach_loop (i k : nat) (define_definition : DefineDefinition)
    (redefines_list : list RedefineDefinition)
    : Result (DefineDefinition * list RedefineDefinition) :=
  match k with
  | O => Ok (define_definition, redefines_list)
  | S k' =>
      let* r := index redefines_list i in
      if String.eqb (define_name define_definition) (redefine_name r) then
        let define_definition' :=
          mkDefine (define_name define_definition) (define_value define_definition) (Some r) in
        let* redefines_list' := swap_remove redefines_list i in
        attach_loop (S i) k' define_definition' redefines_list'
      else attach_loop (S i) k' define_definition redefines_list
  end.

Definition attach_redefinition (define_definition : DefineDefinition)
    (redefines_list : list RedefineDefinition) :=
  attach_loop 0 (length redefines_list) define_definition redefines_list.

(** [for define_definition in &mut file.definitions.defines { .. }] *)
Fixpoint attach_redefinitions (ds : list DefineDefinition) (redefines_list : list RedefineDefinition)
    : Result (list DefineDefinition * list RedefineDefinition) :=
  match ds with
  | [] => Ok ([], redefines_list)
  | d :: r =>
      let* p := attach_redefinition d redefines_list in
      let '(d', redefines_list') := p in
      let* q := attach_redefinitions r redefines_list' in
      let '(r', redefines_list'') := q in
      Ok (d' :: r', redefines_list'')
  end.

(** The value a define stands for: its redefinition's, if one is attached. *)
Definition define_value_of (user_define : DefineDefinition) : DefineValue :=
  match redefinition user_define with
  | None => define_value user_define
  | Some redefine => redefine_value redefine
  end.

(** [for user_define in &defines_list { if user_define.name == definition.name
    { .. definition.value = .. } }]: only a positive integer literal is
    accepted. *)
Definition resolve_define (defines_list : list DefineDefinition) (definition : DefineDefinition)
    : Result DefineDefinition :=
  res_fold (fun definition user_define =>
    if String.eqb (define_name user_define) (define_name definition) then
      match define_value_of user_define with
      | DV_NumericLiteral (PositiveInteger v s) =>
          Ok (mkDefine (define_name definition) (DV_NumericLiteral (PositiveInteger v s))
                (redefinition definition))
      | _ => Err InvalidNumericValue
      end
    else Ok definition) definition defines_list.

(** A message field whose type is an array with a define as element count. *)
Definition resolve_field (defines_list : list DefineDefinition) (field : MessageField)
    : Result MessageField :=
  match field with
  | mkField id (FT_Array (mkArray dt (UserDefinition definition))) idx =>
      let* definition' := resolve_define defines_list definition in
      Ok (mkField id (FT_Array (mkArray dt (UserDefinition definition'))) idx)
  | _ => Ok field
  end.

Definition resolve_message (defines_list : list DefineDefinition) (m : MessageDefinition)
    : Result MessageDefinition :=
  let* fs := res_map (resolve_field defines_list) (message_fields m) in
  Ok (mkMessage (message_name m) fs (message_reserved m)).

(** The body of [for file in definitions { .. }]. *)
Definition process_define_file (defines_list : list DefineDefinition)
    (redefines_list : list RedefineDefinition) (file : RuneFileDescription)
    : Result (RuneFileDescription * list RedefineDefinition) :=
  let d := definitions file in
  let* p := attach_redefinitions (defines d) redefines_list in
  let '(ds, redefines_list') := p in
  let* ms := res_map (resolve_message defines_list) (messages d) in
  Ok (set_definitions file (with_defines_messages d ds ms), redefines_list').

Fixpoint process_define_files (defines_list : list DefineDefinition)
    (redefines_list : list RedefineDefinition) (files : list RuneFileDescription)
    : Result (list RuneFileDescription * list RedefineDefinition) :=
  match files with
  | [] => Ok ([], redefines_list)
  | f :: r =>
      let* p := process_define_file defines_list redefines_list f in
      let '(f', redefines_list') := p in
      let* q := process_define_files defines_list redefines_list' r in
      let '(r', orphans) := q in
      Ok (f' :: r', orphans)
  end.

(** [parse_define_statements]: returns the updated files ([definitions] is
    mutated in place in the source).  [defines_list] is the copy flattened
    before any redefinition is attached; orphan redefines only warn. *)
Definition parse_define_statements (files : list RuneFileDescription)
    : Result (list RuneFileDescription) :=
  let defines_list := flat_map (fun f => defines (definitions f)) files in
  let redefines_list := flat_map (fun f => redefines (definitions f)) files in
  if has_duplicate define_name defines_list then Err MultipleDefinitions
  else if has_duplicate redefine_name redefines_list then Err MultipleRedefinitions
  else
    let* p := process_define_files defines_list redefines_list files in
    Ok (fst p).

(** [ArraySize::value] *)
Definition ArraySize_value (s : ArraySize) : Result N :=
  match s with
  | Integer v _ => Ok (Z.to_N v)
  | UserDefinition definition =>
      match define_value_of definition with
      | DV_NumericLiteral (PositiveInteger v _) => Ok (Z.to_N v)
      | _ => Err InvalidArraySize
      end
  end.

(* ------------------------------------------------------------------ *)
(** ** Type Linker ([src/post_processing/process_user_definitions.rs]) *)

(** The Rust recursion is unbounded; [fuel] bounds its depth, and running
    out of it stands for the stack overflow a cyclic definition causes. *)
Definition link_stack_depth : nat := 256.

(** [find_data_definition]: per file, bitfields, then enums, then structs
    (cloned, with their [UserDefined] members linked recursively), then a
    message of that name is an invalid use; no match at all is
    [UndefinedIdentifier]. *)
Fixpoint find_data_definition (fuel : nat) (identifier : string)
    (definitions_ : list RuneFileDescription) : Result UserDefinitionLink :=
  match fuel with
  | O => Panic
  | S fuel' =>
      let link_copy_member (member : StructMember) : Result StructMember :=
        match member with
        | mkMember id (MT_UserDefined definition_name _) idx =>
            let* l := find_data_definition fuel' definition_name definitions_ in
            Ok (mkMember id (MT_UserDefined definition_name l) idx)
        | _ => Ok member
        end in
      (fix search (fs : list RuneFileDescription) : Result UserDefinitionLink :=
         match fs with
         | [] => Err UndefinedIdentifier
         | file :: rest =>
             let d := definitions file in
             match List.find (fun b => String.eqb identifier (bitfield_name b)) (bitfields d) with
             | Some b => Ok (BitfieldLink b)
             | None =>
             match List.find (fun e => String.eqb identifier (enum_name e)) (enums d) with
             | Some e => Ok (EnumLink e)
             | None =>
             match List.find (fun s => String.eqb identifier (struct_name s)) (structs d) with
             | Some s =>
                 let* ms := res_map link_copy_member (struct_members s) in
                 Ok (StructLink (mkStruct (struct_name s) ms (struct_reserved s)))
             | None =>
                 if existsb (fun m => String.eqb identifier (message_name m)) (messages d)
                 then Err InvalidTypeUse
                 else search rest
             end end end
         end) definitions_
  end.

(** [find_field_definition]: a message of that name in any file (cloned,
    with its [UserDefined] fields linked recursively), else
    [find_data_definition]. *)
Fixpoint find_field_definition (fuel : nat) (identifier : string)
    (definitions_ : list RuneFileDescription) : Result UserDefinitionLink :=
  match fuel with
  | O => Panic
  | S fuel' =>
      let link_copy_field (field : MessageField) : Result MessageField :=
        match field with
        | mkField id (FT_UserDefined definition_name _) idx =>
            let* l := find_field_definition fuel' definition_name definitions_ in
            Ok (mkField id (FT_UserDefined definition_name l) idx)
        | _ => Ok field
        end in
      match List.find (fun m => String.eqb identifier (message_name m))
              (flat_map (fun f => messages (definitions f)) definitions_) with
      | Some m =>
          let* fs := res_map link_copy_field (message_fields m) in
          Ok (MessageLink (mkMessage (message_name m) fs (message_reserved m)))
      | None => find_data_definition fuel identifier definitions_
      end
  end.

Definition with_messages_structs (d : Definitions) (ms : list MessageDefinition)
    (ss : list StructDefinition) : Definitions :=
  mkDefinitions (bitfields d) (defines d) (redefines d) (enums d) (extensions d) (includes d) ms ss.

(** The [match &mut field.data_type] of the message loop. *)
Definition link_field (immutable_reference : list RuneFileDescription) (field : MessageField)
    : Result MessageField :=
  match field with
  | mkField id (FT_Array (mkArray (AT_UserDefined definition_name _) c)) idx =>
      let* l := find_data_definition link_stack_depth definition_name immutable_reference in
      Ok (mkField id (FT_Array (mkArray (AT_UserDefined definition_name l) c)) idx)
  | mkField _ FT_Empty _ => Err EmptyMessageField
  | mkField id (FT_UserDefined definition_name _) idx =>
      let* l := find_field_definition link_stack_depth definition_name immutable_reference in
      Ok (mkField id (FT_UserDefined definition_name l) idx)
  | _ => Ok field
  end.

(** The [match &mut member.data_type] of the struct loop. *)
Definition link_member (immutable_reference : list RuneFileDescription) (member : StructMember)
    : Result StructMember :=
  match member with
  | mkMember id (MT_Array (mkArray (AT_UserDefined definition_name _) c)) idx =>
      let* l := find_data_definition link_stack_depth definition_name immutable_reference in
      Ok (mkMember id (MT_Array (mkArray (AT_UserDefined definition_name l) c)) idx)
  | mkMember id (MT_UserDefined definition_name _) idx =>
      let* l := find_data_definition link_stack_depth definition_name immutable_reference in
      Ok (mkMember id (MT_UserDefined definition_name l) idx)
  | _ => Ok member
  end.

(** [link_user_definitions]: every lookup goes to the snapshot taken on
    entry; per file, its messages, then its structs. *)
Definition link_user_definitions (files : list RuneFileDescription)
    : Result (list RuneFileDescription) :=
  let immutable_reference := files in
  res_map (fun file =>
    let d := definitions file in
    let* ms := res_map (fun m =>
                 let* fs := res_map (link_field immutable_reference) (message_fields m) in
                 Ok (mkMessage (message_name m) fs (message_reserved m))) (messages d) in
    let* ss := res_map (fun s =>
                 let* mems := res_map (link_member immutable_reference) (struct_members s) in
                 Ok (mkStruct (struct_name s) mems (struct_reserved s))) (structs d) in
    Ok (set_definitions file (with_messages_structs d ms ss))) files.

(* ------------------------------------------------------------------ *)
(** ** Extension Merger ([src/post_processing/process_extensions.rs]) *)

(** [BitfieldExtension], [EnumExtension], ...: the contributing files and the
    fragment. *)
Definition Ext (A : Type) : Type := (list string * A)%type.

Definition collect_extensions {A} (get : Extensions -> list A) (files : list RuneFileDescription)
    : list (Ext A) :=
  flat_map (fun file =>
    let e := extensions (definitions file) in
    if Extensions_is_empty e then []
    else map (fun x => ([file_name file], x)) (get e)) files.

(** Merge loop of the bitfield and enum buckets, where the list read and the
    list written are the same:
    [while i < list_size - 1 { z = i + 1; while z < list_size { .. } i += 1 }].
    Each inner iteration lowers [list_size - z], so [length l] iterations
    suffice. *)
Section SameListMerge.
Context {A : Type} (name : A -> string) (check : A -> A -> Result unit)
  (combine : A -> A -> A).

Fixpoint merge_z (k i z list_size : nat) (l : list (Ext A)) : Result (list (Ext A) * nat) :=
  match k with
  | O => Ok (l, list_size)
  | S k' =>
      if decide (z < list_size)%nat then
        let* ei := index l i in
        let* ez := index l z in
        if String.eqb (name ei.2) (name ez.2) then
          let* _ := check ei.2 ez.2 in
          let l1 := <[i := (ei.1 ++ ez.1, combine ei.2 ez.2)]> l in
          let* l2 := swap_remove l1 z in
          merge_z k' i z (list_size - 1) l2
        else merge_z k' i (S z) list_size l
      else Ok (l, list_size)
  end.

Fixpoint merge_i (k i list_size : nat) (l : list (Ext A)) : Result (list (Ext A)) :=
  match k with
  | O => Ok l
  | S k' =>
      if decide (i < list_size - 1)%nat then
        let* p := merge_z (length l) i (S i) list_size l in
        merge_i k' (S i) p.2 p.1
      else Ok l
  end.

Definition merge_same (l : list (Ext A)) : Result (list (Ext A)) :=
  if decide (1 < length l)%nat then merge_i (length l) 0 (length l) l else Ok l.
End SameListMerge.

(** Merge loop of the message and struct buckets: the names and the
  collision check read the list [l1], while the files, the members and the
  [swap_remove] go to the list [l2] (in the source the message loop writes
  [struct_extensions] and the struct loop writes [message_extensions]).
  [on_collision] is what the [error!] arguments evaluate before the
  [IndexCollision] is returned. *)
Section CrossListMerge.
Context {A B : Type} (name : A -> string) (collides : A -> A -> bool)
  (on_collision : nat -> list (Ext B) -> Result unit) (combine : B -> B -> B).

Fixpoint cross_z (k i z list_size : nat) (l1 : list (Ext A)) (l2 : list (Ext B))
    : Result (list (Ext B) * nat) :=
  match k with
  | O => Ok (l2, list_size)
  | S k' =>
      if decide (z < list_size)%nat then
        let* ei := index l1 i in
        let* ez := index l1 z in
        if String.eqb (name ei.2) (name ez.2) then
          if collides ei.2 ez.2 then
            let* _ := on_collision i l2 in Err IndexCollision
          else
            let* bz := index l2 z in
            let* bi := index l2 i in
            let l2' := <[i := (bi.1 ++ bz.1, combine bi.2 bz.2)]> l2 in
            let* l2'' := swap_remove l2' z in
            cross_z k' i z (list_size - 1) l1 l2''
        else cross_z k' i (S z) list_size l1 l2
      else Ok (l2, list_size)
  end.

Fixpoint cross_i (k i list_size : nat) (l1 : list (Ext A)) (l2 : list (Ext B))
    : Result (list (Ext B)) :=
  match k with
  | O => Ok l2
  | S k' =>
      if decide (i < list_size - 1)%nat then
        let* p := cross_z (length l1) i (S i) list_size l1 l2 in
        cross_i k' (S i) p.2 l1 p.1
      else Ok l2
  end.

Definition merge_cross (l1 : list (Ext A)) (l2 : list (Ext B)) : Result (list (Ext B)) :=
  if decide (1 < length l1)%nat then cross_i (length l1) 0 (length l1) l1 l2 else Ok l2.
End CrossListMerge.

Definition with_members_bitfield (b : BitfieldDefinition) (ms : list BitfieldMember) :=
  mkBitfield (bitfield_name b) (bitfield_backing_type b) ms (bitfield_reserved_indexes b).
Definition with_members_enum (e : EnumDefinition) (ms : list EnumMember) :=
  mkEnum (enum_name e) (enum_backing_type e) ms (enum_reserved_values e).
Definition with_fields_message (m : MessageDefinition) (fs : list MessageField) :=
  mkMessage (message_name m) fs (message_reserved m).
Definition with_members_struct (s : StructDefinition) (ms : list StructMember) :=
  mkStruct (struct_name s) ms (struct_reserved s).

(** Some member of [zs] has the identifier of some member of [is_]. *)
Definition identifiers_collide {M} (ident : M -> string) (zs is_ : list M) : bool :=
  existsb (fun zm => existsb (fun im => String.eqb (ident zm) (ident im)) is_) zs.

(** Check of two same-named bitfield (enum) fragments [i], [z]. *)
Definition bitfield_check (bi bz : BitfieldDefinition) : Result unit :=
  if negb (Primitive_eqb (bitfield_backing_type bi) (bitfield_backing_type bz)) then Err ExtensionMismatch
  else if identifiers_collide bf_member_identifier (bitfield_members bz) (bitfield_members bi)
  then Err IndexCollision else Ok tt.
Definition bitfield_combine (bi bz : BitfieldDefinition) : BitfieldDefinition :=
  with_members_bitfield bi (bitfield_members bi ++ bitfield_members bz).

Definition enum_check (ei ez : EnumDefinition) : Result unit :=
  if negb (Primitive_eqb (enum_backing_type ei) (enum_backing_type ez)) then Err ExtensionMismatch
  else if identifiers_collide enum_member_identifier (enum_members ez) (enum_members ei)
  then Err IndexCollision else Ok tt.
Definition enum_combine (ei ez : EnumDefinition) : EnumDefinition :=
  with_members_enum ei (enum_members ei ++ enum_members ez).

Definition message_collides (mi mz : MessageDefinition) : bool :=
  identifiers_collide field_identifier (message_fields mz) (message_fields mi).
Definition struct_collides (si sz : StructDefinition) : bool :=
  identifiers_collide member_identifier (struct_members sz) (struct_members si).
Definition struct_combine (si sz : StructDefinition) : StructDefinition :=
  with_members_struct si (struct_members si ++ struct_members sz).
Definition message_combine (mi mz : MessageDefinition) : MessageDefinition :=
  with_fields_message mi (message_fields mi ++ message_fields mz).

Definition with_bitfields_includes (d : Definitions) (bs : list BitfieldDefinition) (incs : list string) :=
  mkDefinitions bs (defines d) (redefines d) (enums d) (extensions d) incs (messages d) (structs d).
Definition with_enums_includes (d : Definitions) (es : list EnumDefinition) (incs : list string) :=
  mkDefinitions (bitfields d) (defines d) (redefines d) es (extensions d) incs (messages d) (structs d).
Definition with_messages_includes (d : Definitions) (ms : list MessageDefinition) (incs : list string) :=
  mkDefinitions (bitfields d) (defines d) (redefines d) (enums d) (extensions d) incs ms (structs d).
Definition with_structs_includes (d : Definitions) (ss : list StructDefinition) (incs : list string) :=
  mkDefinitions (bitfields d) (defines d) (redefines d) (enums d) (extensions d) incs (messages d) ss.

(** [for file in &mut *definitions { for definition in &mut file.definitions.X
    { if definition.name == extension.definition.name { .. } } }] for one
    extension: [apply] gives [None] for a declaration of another name, the
    extended declaration otherwise; each extended declaration adds the
    extension's files to the includes of its file. *)
Definition append_into_file {D} (get : Definitions -> list D)
    (set : Definitions -> list D -> list string -> Definitions)
    (apply : D -> Result (option D)) (ext_files : list string) (file : RuneFileDescription)
    : Result RuneFileDescription :=
  let d := definitions file in
  let* p := res_fold (fun acc x =>
              let* r := apply x in
              match r with
              | None => Ok (acc.1 ++ [x], acc.2)
              | Some x' => Ok (acc.1 ++ [x'], acc.2 ++ ext_files)
              end) ([], includes d) (get d) in
  Ok (set_definitions file (set d p.1 p.2)).

Definition append_bitfield (e : BitfieldDefinition) (bd : BitfieldDefinition)
    : Result (option BitfieldDefinition) :=
  if String.eqb (bitfield_name bd) (bitfield_name e) then
    if negb (Primitive_eqb (bitfield_backing_type bd) (bitfield_backing_type e)) then Err ExtensionMismatch
    else if identifiers_collide bf_member_identifier (bitfield_members e) (bitfield_members bd)
    then Err IndexCollision
    else Ok (Some (with_members_bitfield bd (bitfield_members bd ++ bitfield_members e)))
  else Ok None.

Definition append_enum (e : EnumDefinition) (ed : EnumDefinition) : Result (option EnumDefinition) :=
  if String.eqb (enum_name ed) (enum_name e) then
    if negb (Primitive_eqb (enum_backing_type ed) (enum_backing_type e)) then Err ExtensionMismatch
    else if identifiers_collide enum_member_identifier (enum_members e) (enum_members ed)
    then Err IndexCollision
    else Ok (Some (with_members_enum ed (enum_members ed ++ enum_members e)))
  else Ok None.

Definition append_message (e : MessageDefinition) (md : MessageDefinition)
    : Result (option MessageDefinition) :=
  if String.eqb (message_name md) (message_name e) then
    if identifiers_collide field_identifier (message_fields e) (message_fields md)
    then Err IndexCollision
    else Ok (Some (with_fields_message md (message_fields md ++ message_fields e)))
  else Ok None.

Definition append_struct (e : StructDefinition) (sd : StructDefinition)
    : Result (option StructDefinition) :=
  if String.eqb (struct_name sd) (struct_name e) then
    if identifiers_collide member_identifier (struct_members e) (struct_members sd)
    then Err IndexCollision
    else Ok (Some (with_members_struct sd (struct_members sd ++ struct_members e)))
  else Ok None.

Definition append_all {D} (get : Definitions -> list D)
    (set : Definitions -> list D -> list string -> Definitions)
    (apply : D -> D -> Result (option D)) (exts : list (Ext D)) (files : list RuneFileDescription)
    : Result (list RuneFileDescription) :=
  res_fold (fun fs ext => res_map (append_into_file get set (apply ext.2) ext.1) fs) files exts.

(** [parse_extensions]; [silent] is the global flag of [src/output.rs]
    deciding whether the [error!] arguments get evaluated. *)
Definition parse_extensions (silent : bool) (files : list RuneFileDescription)
    (append_definitions : bool) : Result (list RuneFileDescription) :=
  let bitfield_extensions := collect_extensions ext_bitfields files in
  let enum_extensions := collect_extensions ext_enums files in
  let message_extensions := collect_extensions ext_messages files in
  let struct_extensions := collect_extensions ext_structs files in
  (* Check Bitfields *)
  let* bitfield_extensions :=
    merge_same bitfield_name bitfield_check bitfield_combine bitfield_extensions in
  (* Check Enums *)
  let* enum_extensions := merge_same enum_name enum_check enum_combine enum_extensions in
  (* Check Messages *)
  let* struct_extensions :=
    merge_cross message_name message_collides (fun _ _ => Ok tt) struct_combine
      message_extensions struct_extensions in
  (* Check Structs *)
  let* message_extensions :=
    merge_cross struct_name struct_collides
      (fun i l2 => if silent then Ok tt else let* _ := index l2 i in Ok tt)
      message_combine struct_extensions message_extensions in
  if append_definitions then
    let* files := append_all bitfields with_bitfields_includes append_bitfield bitfield_extensions files in
    let* files := append_all enums with_enums_includes append_enum enum_extensions files in
    let* files := append_all messages with_messages_includes append_message message_extensions files in
    append_all structs with_structs_includes append_struct struct_extensions files
  else Ok files.

(* ------------------------------------------------------------------ *)
(** ** The pipeline ([parser_rune_files] of [src/lib.rs]) *)

(** The post-processing part of [parser_rune_files], on the parsed files
    (directory traversal, scanning and parsing are upstream). *)
Definition parser_rune_files (files : list RuneFileDescription) (append_extensions silent : bool)
    : Result (list RuneFileDescription) :=
  let* files := parse_define_statements files in
  let* files := link_user_definitions files in
  let* files := parse_extensions silent files append_extensions in
  let* _ := validate_parsed_files files in
  Ok files.

(* ------------------------------------------------------------------ *)
(** ** Size Estimator ([src/types/arrays.rs], [src/types/messages.rs]) *)

(** [u64] arithmetic: [+] and [*] on [u64] as a release build runs them,
    wrapping modulo 2^64 (a debug build panics on the overflow instead). *)
Definition u64_modulus : N := 18446744073709551616.
Definition u64_wrap (x : N) : N := (x mod u64_modulus)%N.

(** [ArrayType::size] and [Array::byte_size] of [src/types/arrays.rs]
    (whose [size * count] is a [u64] product), and the struct flat size they
    call.

    Modelled from the spec: [StructDefinition::flat_size] (not in src/).  Spec
    §4.5: the sum, in declaration order, of each member's fixed width:
    primitive width, nested struct's flat size, backing width for
    enum/bitfield members, or array width times count; it fails if a member
    is a message ([InvalidStructMemberType]) and, like its sibling
    [ArrayType::size], on an unresolved link ([UndefinedIdentifier]). *)
Fixpoint flat_size (s : StructDefinition) : Result N :=
  match s with
  | mkStruct _ ms _ =>
      (fix go (l : list StructMember) (total : N) : Result N :=
         match l with
         | [] => Ok total
         | m :: r => let* w := member_size m in go r (total + w)%N
         end) ms 0%N
  end
with member_size (m : StructMember) : Result N :=
  match m with
  | mkMember _ t _ =>
      match t with
      | MT_Primitive p => Ok (encoded_max_data_size p)
      | MT_Array a => array_byte_size a
      | MT_UserDefined _ l =>
          match l with
          | NoLink => Err UndefinedIdentifier
          | BitfieldLink b => Ok (encoded_max_data_size (bitfield_backing_type b))
          | EnumLink e => Ok (encoded_max_data_size (enum_backing_type e))
          | MessageLink _ => Err InvalidStructMemberType
          | StructLink s' => flat_size s'
          end
      end
  end
with array_byte_size (a : Array) : Result N :=
  match a with
  | mkArray dt c =>
      let* size := array_type_size dt in
      let* n := ArraySize_value c in
      Ok (u64_wrap (size * n))
  end
with array_type_size (t : ArrayType) : Result N :=
  match t with
  | AT_Primitive p => Ok (encoded_max_data_size p)
  | AT_UserDefined _ l =>
      match l with
      | NoLink => Err UndefinedIdentifier
      | EnumLink e => Ok (encoded_max_data_size (enum_backing_type e))
      | BitfieldLink b => Ok (encoded_max_data_size (bitfield_backing_type b))
      | MessageLink _ => Err InvalidArrayType
      | StructLink s => flat_size s
      end
  end.

(** [optimal_encoded_data_size]: [U8_RANGE], [U16_RANGE], [U32_RANGE] are
    the half-open ranges [0..u8::MAX], [0..u16::MAX], [0..u32::MAX]. *)
Definition optimal_encoded_data_size (size : N) : Result N :=
  let HEADER_SIZE := 1%N in
  if (size =? 0)%N then Ok 0%N
  else if ((size =? 1) || (size =? 2) || (size =? 4) || (size =? 8))%N then Ok (HEADER_SIZE + size)%N
  else if (size <? 255)%N then Ok (HEADER_SIZE + 1 + size)%N
  else if (size <? 65535)%N then Ok (HEADER_SIZE + 2 + size)%N
  else if (size <? 4294967295)%N then Ok (HEADER_SIZE + 4 + size)%N
  else Err InvalidEncodedSize.

(** The largest [index.value()] of the fields, starting from 0. *)
Definition largest_field_index (fields : list MessageField) : Z :=
  fold_left (fun largest f =>
    if FieldIndex_value (field_index f) >? largest then FieldIndex_value (field_index f) else largest)
    fields 0.

Definition WORST_CASE_ENCODING : N := 5.

(** [MessageField::full_encoded_size], [MessageDefinition::optimal_full_encoded_size]
    and [MessageDefinition::worst_case_encoded_size]; the worst-case total
    [total_size += WORST_CASE_ENCODING + value] is [u64] arithmetic. *)
Fixpoint full_encoded_size (worst_case : bool) (f : MessageField) : Result (option N) :=
  match f with
  | mkField _ dt _ =>
      match dt with
      | FT_Array a => let* n := array_byte_size a in Ok (Some n)
      | FT_Empty => Ok (Some 0%N)
      | FT_Primitive p => Ok (Some (encoded_max_data_size p))
      | FT_UserDefined _ l =>
          match l with
          | NoLink => Err UndefinedIdentifier
          | BitfieldLink b => Ok (Some (encoded_max_data_size (bitfield_backing_type b)))
          | EnumLink e => Ok (Some (encoded_max_data_size (enum_backing_type e)))
          | MessageLink m =>
              if worst_case then worst_case_encoded_size m
              else let* n := optimal_full_encoded_size m in Ok (Some n)
          | StructLink s => let* n := flat_size s in Ok (Some n)
          end
      end
  end
with optimal_full_encoded_size (m : MessageDefinition) : Result N :=
  match m with
  | mkMessage _ fields _ =>
      (fix go (l : list MessageField) (total_size : N) : Result N :=
         match l with
         | [] => Ok total_size
         | f :: r =>
             let* value := full_encoded_size false f in
             match value with
             | None => Panic (* [value.unwrap()] *)
             | Some v => let* s := optimal_encoded_data_size v in go r (total_size + s)%N
             end
         end) fields 0%N
  end
with worst_case_encoded_size (m : MessageDefinition) : Result (option N) :=
  match m with
  | mkMessage _ fields _ =>
      (fix loop (k : nat) (i : Z) (total_size : N) : Result (option N) :=
         match k with
         | O => Ok (Some total_size)
         | S k' =>
             match (fix scan (l : list MessageField) : option (Result (option N)) :=
                      match l with
                      | [] => None
                      | f :: r =>
                          if FieldIndex_value (field_index f) =? i
                          then Some (full_encoded_size true f) else scan r
                      end) fields with
             | None => Ok None
             | Some r =>
                 let* v := r in
                 match v with
                 | None => Ok None
                 | Some value => loop k' (i + 1) (u64_wrap (total_size + u64_wrap (WORST_CASE_ENCODING + value)))
                 end
             end
         end) (Z.to_nat (largest_field_index fields + 1)) 0 0%N
  end.

(* ------------------------------------------------------------------ *)
(** ** Concrete schemas *)

Definition no_extensions : Extensions := mkExtensions [] [] [] [].

(** A file with the given declarations and no includes. *)
Definition rune_file (name : string) (bs : list BitfieldDefinition) (ds : list DefineDefinition)
    (rs : list RedefineDefinition) (es : list EnumDefinition) (ext : Extensions)
    (ms : list MessageDefinition) (ss : list StructDefinition) : RuneFileDescription :=
  mkFile "" name (mkDefinitions bs ds rs es ext [] ms ss).

(** As the parser builds them: a define with no redefinition attached, an
    element count naming a define with no value yet. *)
Definition define (n : string) (v : Z) : DefineDefinition :=
  mkDefine n (DV_NumericLiteral (PositiveInteger v Decimal)) None.
Definition redefine (n : string) (v : Z) : RedefineDefinition :=
  mkRedefine n (DV_NumericLiteral (PositiveInteger v Decimal)).
Definition count_of (n : string) : ArraySize := UserDefinition (mkDefine n DV_NoValue None).

Definition color_enum : EnumDefinition :=
  mkEnum "Color" U8 [mkEnumMember "Red" (PositiveInteger 0 Decimal)] [].

(** Spec §2: "Constant Resolver → Extension Merger → Type Linker →
    Validator", the order the spec gives (second definition, compared with
    [parser_rune_files]). *)
Definition spec_ordered_pipeline (files : list RuneFileDescription) (append_extensions silent : bool)
    : Result (list RuneFileDescription) :=
  let* files := parse_define_statements files in
  let* files := parse_extensions silent files append_extensions in
  let* files := link_user_definitions files in
  let* _ := validate_parsed_files files in
  Ok files.

(** A file declaring enum [Color] and struct [S { x: u8 = 0; }], and
    extending [S] with [c: Color = 1]. *)
Definition extend_with_user_type : list RuneFileDescription :=
  [rune_file "a" [] [] [] [color_enum]
     (mkExtensions [] [] [] [mkStruct "S" [mkMember "c" (MT_UserDefined "Color" NoLink) (Numeric 1)] []])
     [] [mkStruct "S" [mkMember "x" (MT_Primitive U8) (Numeric 0)] []]].

(** Two files each extending message [M] (and some enum). *)
Definition two_message_fragments : list RuneFileDescription :=
  [rune_file "a" [] [] [] []
     (mkExtensions [] [mkEnum "E" U8 [] []] [mkMessage "M" [mkField "a" (FT_Primitive U8) (Numeric 0)] []] [])
     [] [];
   rune_file "b" [] [] [] []
     (mkExtensions [] [mkEnum "F" U8 [] []] [mkMessage "M" [mkField "b" (FT_Primitive U8) (Numeric 1)] []] [])
     [] []].

(** [define N = 4; redefine N = 10;] and an array of [N] bytes in a message
    and in a struct. *)
Definition redefined_array_size : list RuneFileDescription :=
  [rune_file "a" [] [define "N" 4] [redefine "N" 10] [] no_extensions
     [mkMessage "M" [mkField "a" (FT_Array (mkArray (AT_Primitive U8) (count_of "N"))) (Numeric 0)] []]
     [mkStruct "S" [mkMember "b" (MT_Array (mkArray (AT_Primitive U8) (count_of "N"))) (Numeric 0)] []]].

(** The element counts of all array fields of messages, and of all array
    members of structs, as [ArraySize::value] reads them. *)
Definition message_array_counts (files : list RuneFileDescription) : list (Result N) :=
  flat_map (fun f => flat_map (fun m => flat_map (fun fd =>
    match field_data_type fd with FT_Array (mkArray _ c) => [ArraySize_value c] | _ => [] end)
    (message_fields m)) (messages (definitions f))) files.
Definition struct_array_counts (files : list RuneFileDescription) : list (Result N) :=
  flat_map (fun f => flat_map (fun s => flat_map (fun md =>
    match member_data_type md with MT_Array (mkArray _ c) => [ArraySize_value c] | _ => [] end)
    (struct_members s)) (structs (definitions f))) files.

(** A struct at the verifier alias and at index 0 inside a message (with a
    struct so that the name list is not empty). *)
Definition message_verifier_and_zero : list RuneFileDescription :=
  [rune_file "a" [] [] [] [] no_extensions
     [mkMessage "M" [mkField "v" (FT_Primitive U8) Verifier; mkField "w" (FT_Primitive U8) (Numeric 0)] []]
     [mkStruct "S" [] []]].

(** A resolved link holds no [NoLink] at any depth (struct members, array
    element types, message fields). *)
Fixpoint link_self_contained (l : UserDefinitionLink) : bool :=
  match l with
  | NoLink => false
  | BitfieldLink _ | EnumLink _ => true
  | MessageLink (mkMessage _ fs _) =>
      (fix go (fs : list MessageField) : bool :=
         match fs with
         | [] => true
         | mkField _ t _ :: r =>
             match t with
             | FT_Array (mkArray (AT_UserDefined _ l') _) => link_self_contained l'
             | FT_UserDefined _ l' => link_self_contained l'
             | _ => true
             end && go r
         end) fs
  | StructLink (mkStruct _ ms _) =>
      (fix go (ms : list StructMember) : bool :=
         match ms with
         | [] => true
         | mkMember _ t _ :: r =>
             match t with
             | MT_Array (mkArray (AT_UserDefined _ l') _) => link_self_contained l'
             | MT_UserDefined _ l' => link_self_contained l'
             | _ => true
             end && go r
         end) ms
  end.

(** The links of all [UserDefined] struct members. *)
Definition struct_member_links (files : list RuneFileDescription) : list UserDefinitionLink :=
  flat_map (fun f => flat_map (fun s => flat_map (fun md =>
    match member_data_type md with MT_UserDefined _ l => [l] | _ => [] end)
    (struct_members s)) (structs (definitions f))) files.

(** struct [Inner { c: [Color; 2] }], struct [Outer { i: Inner }]. *)
Definition nested_array_of_enum : list RuneFileDescription :=
  [rune_file "a" [] [] [] [color_enum] no_extensions []
     [mkStruct "Inner" [mkMember "c" (MT_Array (mkArray (AT_UserDefined "Color" NoLink) (Integer 2 Decimal))) (Numeric 0)] [];
      mkStruct "Outer" [mkMember "i" (MT_UserDefined "Inner" NoLink) (Numeric 0)] []]].

(** [define A = 1;], [redefine A = 2;], [redefine B = 3;] *)
Definition two_redefines_first_matched : list RuneFileDescription :=
  [rune_file "a" [] [define "A" 1] [redefine "A" 2; redefine "B" 3] [] no_extensions [] []].

(** A file with a single message and no other declaration. *)
Definition only_messages : list RuneFileDescription :=
  [rune_file "a" [] [] [] [] no_extensions
     [mkMessage "M" [mkField "x" (FT_Primitive U8) (Numeric 0)] []] []].

(** The size formula of spec §4.5 as claim C6 words it: a 1-byte header plus
    the payload, and for an array payload the smallest length header (1, 2
    or 4 bytes) it fits in. *)
Definition spec_length_header (payload : N) : N :=
  if (payload <=? 255)%N then 1 else if (payload <=? 65535)%N then 2 else 4.
Definition spec_field_optimal_size (is_array : bool) (payload : N) : N :=
  (1 + payload + (if is_array then spec_length_header payload else 0))%N.

(** The per-field contribution as the code has it by design, away from the
    range boundaries 255, 65535 and 2^32 - 1: nothing for an empty payload, a
    header for the primitive widths 1, 2, 4, 8, and a header with a 1, 2 or 4
    byte length otherwise. *)
Definition amended_encoded_data_size (s : N) : N :=
  if (s =? 0)%N then 0
  else if ((s =? 1) || (s =? 2) || (s =? 4) || (s =? 8))%N then 1 + s
  else if (s <=? 254)%N then 2 + s
  else if (s <=? 65534)%N then 3 + s
  else 5 + s.

Definition payload_off_boundaries (p : N) : Prop :=
  p <> 255%N /\ p <> 65535%N /\ (p < 4294967295)%N.

Definition sumN (l : list N) : N := fold_right N.add 0%N l.

(** [optimal_full_encoded_size]'s loop, named. *)
Fixpoint optimal_loop (l : list MessageField) (total_size : N) : Result N :=
  match l with
  | [] => Ok total_size
  | f :: r =>
      let* value := full_encoded_size false f in
      match value with
      | None => Panic
      | Some v => let* s := optimal_encoded_data_size v in optimal_loop r (total_size + s)%N
      end
  end.

(** Claim C7's terms: the field the code finds at index [i] (the first one),
    the index domain [0 ..= largest index], and the payload at an index. *)
Definition field_at (i : Z) (fields : list MessageField) : option MessageField :=
  List.find (fun f => FieldIndex_value (field_index f) =? i) fields.




(** [worst_case_encoded_size]'s loop, named. *)
Fixpoint worst_loop (fields : list MessageField) (k : nat) (i : Z) (total_size : N)
    : Result (option N) :=
  match k with
  | O => Ok (Some total_size)
  | S k' =>
      match option_map (full_encoded_size true) (field_at i fields) with
      | None => Ok None
      | Some r =>
          let* v := r in
          match v with
          | None => Ok None
          | Some value => worst_loop fields k' (i + 1) (u64_wrap (total_size + u64_wrap (WORST_CASE_ENCODING + value)))
          end
      end
  end.

(** The spec's scenario: struct [S { v: u8 = verifier; w: u8 = 0; }] in a
    file. *)
Definition verifier_and_zero_struct : StructDefinition :=
  mkStruct "S" [mkMember "v" (MT_Primitive U8) Verifier; mkMember "w" (MT_Primitive U8) (Numeric 0)] [].
Definition verifier_and_zero_file : RuneFileDescription :=
  rune_file "a" [] [] [] [] no_extensions [] [verifier_and_zero_struct].

(** Message [M { a: u8 = 0; b: u32 = 2; c: u16 = 1; }], no gap, and
    [G { a: u8 = 0; b: u8 = 2; }], a gap at index 1. *)
Definition gap_free_fields : list MessageField :=
  [mkField "a" (FT_Primitive U8) (Numeric 0); mkField "b" (FT_Primitive U32) (Numeric 2);
   mkField "c" (FT_Primitive U16) (Numeric 1)].

(* ------------------------------------------------------------------ *)
(** ** File naming ([parser_rune_files] of [src/lib.rs]) *)

(** [str::strip_prefix] *)
Fixpoint strip_prefix (prefix s : string) : option string :=
  match prefix, s with
  | EmptyString, _ => Some s
  | String c p, String d s' => if Ascii.eqb c d then strip_prefix p s' else None
  | String _ _, EmptyString => None
  end.

Fixpoint str_rev (s : string) : string :=
  match s with
  | EmptyString => EmptyString
  | String c s' => String.append (str_rev s') (String c EmptyString)
  end.

(** [str::strip_suffix]: a prefix of the reversed strings. *)
Definition strip_suffix (suffix s : string) : option string :=
  option_map str_rev (strip_prefix (str_rev suffix) (str_rev s)).

(** The [relative_path] and [name] that [parser_rune_files] gives the file
    found at path [rune_file_name] under [source_path], whose last path
    component is [full_file_name]; [None] is the [continue] that skips it. *)
Definition rune_file_identity (rune_file_name source_path full_file_name : string)
    : option (string * string) :=
  match strip_suffix ".rune" full_file_name with
  | None => None
  | Some name =>
      match strip_prefix source_path rune_file_name with
      | None => None
      | Some s =>
          match strip_prefix "/" s with
          | None => None
          | Some stripped_path =>
              match strip_suffix full_file_name stripped_path with
              | None => None
              | Some relative_path => Some (relative_path, name)
              end
          end
      end
  end.

(* ------------------------------------------------------------------ *)
(** ** Views of the declarations *)

(** The inclusive range of the values of an integer primitive ([Char] is
    the signed byte of [validate_value]). *)
Definition integer_bounds (p : Primitive) : option (Z * Z) :=
  match p with
  | Char | I8 => Some (i8_min, i8_max)
  | U8 => Some (0, u8_max)
  | I16 => Some (i16_min, i16_max)
  | U16 => Some (0, u16_max)
  | I32 => Some (i32_min, i32_max)
  | U32 => Some (0, u32_max)
  | I64 => Some (i64_min, i64_max)
  | U64 => Some (0, u64_max)
  | _ => None
  end.

(** A literal the scanner can produce: a [u64] positive integer, an [i64]
    negative one. *)
Definition literal_well_formed (v : NumericLiteral) : Prop :=
  match v with
  | PositiveInteger z _ => 0 <= z <= u64_max
  | NegativeInteger z _ => i64_min <= z < 0
  | _ => True
  end.

(** The sum of the bit sizes of a bitfield's members. *)
Definition bitfield_total_bits (b : BitfieldDefinition) : Z :=
  fold_left (fun t m => t + BitSize_absolute (bf_member_size m)) (bitfield_members b) 0.

(** A file with its messages dropped. *)
Definition without_messages (f : RuneFileDescription) : RuneFileDescription :=
  let d := definitions f in set_definitions f (with_messages_structs d [] (structs d)).

(** All defines / redefines, in file order, as [parse_define_statements]
    flattens them. *)
Definition all_defines (files : list RuneFileDescription) : list DefineDefinition :=
  flat_map (fun f => defines (definitions f)) files.
Definition all_redefines (files : list RuneFileDescription) : list RedefineDefinition :=
  flat_map (fun f => redefines (definitions f)) files.

(** The defines named by the element counts of message array fields. *)
Definition message_count_defines (files : list RuneFileDescription) : list DefineDefinition :=
  flat_map (fun f => flat_map (fun m => flat_map (fun fd =>
    match field_data_type fd with
    | FT_Array (mkArray _ (UserDefinition u)) => [u]
    | _ => []
    end) (message_fields m)) (messages (definitions f))) files.

(** A file with what the Constant Resolver writes forgotten: no
    redefinition attached to a define, no value in a message array count. *)
Definition unresolve_count (c : ArraySize) : ArraySize :=
  match c with
  | UserDefinition u => UserDefinition (mkDefine (define_name u) DV_NoValue (redefinition u))
  | _ => c
  end.
Definition unresolve_field (fd : MessageField) : MessageField :=
  match fd with
  | mkField id (FT_Array (mkArray dt c)) idx => mkField id (FT_Array (mkArray dt (unresolve_count c))) idx
  | _ => fd
  end.
Definition unresolve_message (m : MessageDefinition) : MessageDefinition :=
  mkMessage (message_name m) (map unresolve_field (message_fields m)) (message_reserved m).
Definition unresolve_file (f : RuneFileDescription) : RuneFileDescription :=
  let d := definitions f in
  set_definitions f (with_defines_messages d
    (map (fun u => mkDefine (define_name u) (define_value u) None) (defines d))
    (map unresolve_message (messages d))).

(** A file with what the Type Linker writes forgotten: every link held
    directly by a message field or a struct member set back to [NoLink]. *)
Definition unlink_field (fd : MessageField) : MessageField :=
  match fd with
  | mkField id (FT_Array (mkArray (AT_UserDefined n _) c)) idx =>
      mkField id (FT_Array (mkArray (AT_UserDefined n NoLink) c)) idx
  | mkField id (FT_UserDefined n _) idx => mkField id (FT_UserDefined n NoLink) idx
  | _ => fd
  end.
Definition unlink_member (md : StructMember) : StructMember :=
  match md with
  | mkMember id (MT_Array (mkArray (AT_UserDefined n _) c)) idx =>
      mkMember id (MT_Array (mkArray (AT_UserDefined n NoLink) c)) idx
  | mkMember id (MT_UserDefined n _) idx => mkMember id (MT_UserDefined n NoLink) idx
  | _ => md
  end.
Definition unlink_file (f : RuneFileDescription) : RuneFileDescription :=
  let d := definitions f in
  set_definitions f (with_messages_structs d
    (map (fun m => mkMessage (message_name m) (map unlink_field (message_fields m)) (message_reserved m))
       (messages d))
    (map (fun s => mkStruct (struct_name s) (map unlink_member (struct_members s)) (struct_reserved s))
       (structs d))).

(** The links held directly by message fields and struct members. *)
Definition field_links (fd : MessageField) : list UserDefinitionLink :=
  match field_data_type fd with
  | FT_Array (mkArray (AT_UserDefined _ l) _) | FT_UserDefined _ l => [l]
  | _ => []
  end.
Definition member_links (md : StructMember) : list UserDefinitionLink :=
  match member_data_type md with
  | MT_Array (mkArray (AT_UserDefined _ l) _) | MT_UserDefined _ l => [l]
  | _ => []
  end.
Definition top_level_links (files : list RuneFileDescription) : list UserDefinitionLink :=
  flat_map (fun f =>
    flat_map (fun m => flat_map field_links (message_fields m)) (messages (definitions f))
    ++ flat_map (fun s => flat_map member_links (struct_members s)) (structs (definitions f))) files.

(** ** More concrete schemas *)

(** Bitfields [Flags: u8 { a: u3 = 0; b: u5 = 1; }] and
    [Flags: u8 { a: u1 = 0; b: u1 = 0; }]. *)
Definition three_bit_flags : BitfieldDefinition :=
  mkBitfield "Flags" U8 [mkBitfieldMember "a" (Unsigned 3) 0; mkBitfieldMember "b" (Unsigned 5) 1] [].

Definition clashing_flags : BitfieldDefinition :=
  mkBitfield "Flags" U8 [mkBitfieldMember "a" (Unsigned 1) 0; mkBitfieldMember "b" (Unsigned 1) 0] [].
(** Enum [E: u8 { a = 1; b = true; }] (a boolean literal compares equal
    to 1), and struct [S { x: u8 = 0; }] reserving the verifier index. *)
Definition one_twice_enum : EnumDefinition :=
  mkEnum "E" U8 [mkEnumMember "a" (PositiveInteger 1 Decimal); mkEnumMember "b" (Boolean true)] [].
Definition reserved_zero_struct : StructDefinition :=
  mkStruct "S" [mkMember "x" (MT_Primitive U8) (Numeric 0)] [Verifier].

(** A message [M { e: empty = 0; }]. *)
Definition empty_field_message : list RuneFileDescription :=
  [rune_file "a" [] [] [] [] no_extensions [mkMessage "M" [mkField "e" FT_Empty (Numeric 0)] []] []].

(** Fragments extending two different bitfields, from files "a" and "b". *)
Definition two_bitfield_fragments : list (Ext BitfieldDefinition) :=
  [(["a"], mkBitfield "F" U8 [mkBitfieldMember "x" (Unsigned 1) 0] []);
   (["b"], mkBitfield "G" U8 [mkBitfieldMember "y" (Unsigned 1) 0] [])].

(** A file declaring enum [Color] and struct [S { x: u8 = 0; }], and
    extending [S] with an array member [c: [Color; 2] = 1]. *)
Definition extend_with_enum_array : list RuneFileDescription :=
  [rune_file "a" [] [] [] [color_enum]
     (mkExtensions [] [] []
        [mkStruct "S" [mkMember "c" (MT_Array (mkArray (AT_UserDefined "Color" NoLink) (Integer 2 Decimal)))
                         (Numeric 1)] []])
     [] [mkStruct "S" [mkMember "x" (MT_Primitive U8) (Numeric 0)] []]].

(** The arrays of all array members of structs. *)
Definition struct_arrays (files : list RuneFileDescription) : list Array :=
  flat_map (fun f => flat_map (fun s => flat_map (fun md =>
    match member_data_type md with MT_Array a => [a] | _ => [] end)
    (struct_members s)) (structs (definitions f))) files.


(* ================================================================== *)
(** * Properties *)

(** ** Evaluation lemmas for the model's loops *)

Lemma optimal_unfold (n : string) (fields : list MessageField) (r : list FieldIndex) :
  optimal_full_encoded_size (mkMessage n fields r) = optimal_loop fields 0%N.
Proof.
  simpl. generalize 0%N. induction fields as [|f fields IH]; intros t; simpl; [reflexivity|].
  destruct (full_encoded_size false f) as [[v|]| |]; simpl; try reflexivity;
    destruct (optimal_encoded_data_size v); simpl; auto.
Qed.

Lemma scan_find (i : Z) (fields : list MessageField) :
  (fix scan (l : list MessageField) : option (Result (option N)) :=
     match l with
     | [] => None
     | f :: r => if FieldIndex_value (field_index f) =? i then Some (full_encoded_size true f) else scan r
     end) fields
  = option_map (full_encoded_size true) (field_at i fields).
Proof.
  unfold field_at. induction fields as [|f fields IH]; simpl; [reflexivity|].
  destruct (FieldIndex_value (field_index f) =? i); simpl; auto.
Qed.

Lemma worst_unfold (n : string) (fields : list MessageField) (r : list FieldIndex) :
  worst_case_encoded_size (mkMessage n fields r)
  = worst_loop fields (Z.to_nat (largest_field_index fields + 1)) 0 0%N.
Proof.
  simpl. generalize (Z.to_nat (largest_field_index fields + 1)), 0, 0%N.
  intros k. induction k as [|k IH]; intros i t; simpl; [reflexivity|].
  rewrite scan_find. destruct (option_map _ _) as [res|]; simpl; [|reflexivity].
  destruct res as [[v|]| |]; simpl; auto.
Qed.

(** ** The pass order *)

(** C1: the code runs the Type Linker before the Extension Merger, so a
    member spliced into struct [S] by an extension keeps its [NoLink]: after
    the whole pipeline succeeds, [Array::byte_size] of the spliced array
    member reaches the "User defined array type had no link!" error of
    [ArrayType::size] ([UndefinedIdentifier]); in the spec's order (merge,
    then link) the same member is linked to [Color] and has 2 bytes. *)
Theorem C1_spliced_member_unlinked (silent : bool) :
  (let* out := parser_rune_files extend_with_enum_array true silent in
   Ok (map array_byte_size (struct_arrays out)))
  = Ok [Err UndefinedIdentifier]
  /\ (let* out := spec_ordered_pipeline extend_with_enum_array true silent in
      Ok (map array_byte_size (struct_arrays out)))
  = Ok [Ok 2%N].
Proof. destruct silent; vm_compute; split; reflexivity. Qed.

(** ** The Extension Merger *)

(** C2: two files each extending message [M] with a distinct field: the
    merger panics (in both output modes), since the message branch copies
    and removes entries of the struct fragment list, which is empty. *)
Theorem C2_message_merge_panics (silent : bool) :
  parse_extensions silent two_message_fragments true = Panic.
Proof. destruct silent; vm_compute; reflexivity. Qed.

(** ** The Constant Resolver *)

(** C3: with [define N = 4; redefine N = 10;], the array of [N] bytes in the
    message resolves to 4, not 10, and the one in the struct is left
    unresolved ([ArraySize::value] fails with [InvalidArraySize]). *)
Theorem C3_redefine_not_applied :
  (let* out := parse_define_statements redefined_array_size in
   Ok (message_array_counts out, struct_array_counts out))
  = Ok ([Ok 4%N], [Err InvalidArraySize]).
Proof. vm_compute. reflexivity. Qed.

(** C9: with [define A], [redefine A] and [redefine B] (no duplicates), the
    attachment loop indexes past the shortened redefine list: a panic. *)
Theorem C9_attach_out_of_bounds :
  has_duplicate define_name [define "A" 1] = false
  /\ has_duplicate redefine_name [redefine "A" 2; redefine "B" 3] = false
  /\ parse_define_statements two_redefines_first_matched = Panic.
Proof. vm_compute. repeat split. Qed.

(** ** The Validator *)

(** C4 (counterexample): a message with one field at the verifier alias and
    one at index 0 passes validation: messages are not checked. *)
Lemma C4_counterexample :
  validate_parsed_files message_verifier_and_zero = Ok tt.
Proof. vm_compute. reflexivity. Qed.

(** C5: [validate_value] rejects 255 for [u8], 65535 for [u16] and
    [i64::MAX] for [i64], while accepting 254 for [u8]. *)
Theorem C5_upper_bounds_rejected :
  validate_value U8 (PositiveInteger 255 Decimal) = Ok false
  /\ validate_value U8 (PositiveInteger 254 Decimal) = Ok true
  /\ validate_value U16 (PositiveInteger 65535 Decimal) = Ok false
  /\ validate_value I64 (PositiveInteger i64_max Decimal) = Ok false.
Proof. vm_compute. repeat split. Qed.

(** C10: files declaring only a message make [validate_names], and so the
    whole validation pass, panic. *)
Theorem C10_empty_names_panic :
  collect_names only_messages = []
  /\ validate_names only_messages = Panic
  /\ validate_parsed_files only_messages = Panic.
Proof. vm_compute. repeat split. Qed.

(** ** The Type Linker *)

(** C8: struct [Outer { i: Inner }] with [Inner { c: [Color; 2] }]: the
    link of [Outer.i] holds a clone of [Inner] whose array element type
    [Color] is still [NoLink]. *)
Theorem C8_nested_array_unlinked :
  (let* out := link_user_definitions nested_array_of_enum in
   Ok (map link_self_contained (struct_member_links out)))
  = Ok [false].
Proof. vm_compute. reflexivity. Qed.

(** ** Structural lemmas for the Validator *)

Lemma lookup_In {A} (l : list A) (i : nat) (x : A) : l !! i = Some x -> In x l.
Proof.
  revert i. induction l as [|y l IH]; intros [|i] H; simpl in *; try discriminate.
  - left. congruence.
  - right. eauto.
Qed.

Lemma count_cons {A} (p : A -> bool) (x : A) (l : list A) :
  count p (x :: l) = ((if p x then 1 else 0) + count p l)%nat.
Proof. unfold count. simpl. destruct (p x); reflexivity. Qed.

Lemma count_pos {A} (p : A -> bool) (l : list A) (x : A) :
  In x l -> p x = true -> (0 < count p l)%nat.
Proof.
  induction l as [|y l IH]; intros Hin Hp; [destruct Hin|].
  rewrite count_cons. destruct Hin as [<-|Hin]; [rewrite Hp; lia|].
  specialize (IH Hin Hp). lia.
Qed.

(** Two distinct positions satisfying [p] make [count p] exceed 1. *)
Lemma count_two {A} (p : A -> bool) (l : list A) (i j : nat) (a b : A) :
  i <> j -> l !! i = Some a -> l !! j = Some b -> p a = true -> p b = true ->
  (1 < count p l)%nat.
Proof.
  revert i j. induction l as [|x l IH]; intros [|i] [|j] Hij Ha Hb Hpa Hpb;
    simpl in *; try discriminate; try congruence; rewrite count_cons.
  - injection Ha as ->. rewrite Hpa.
    pose proof (count_pos p l b (lookup_In _ _ _ Hb) Hpb). lia.
  - injection Hb as ->. rewrite Hpb.
    pose proof (count_pos p l a (lookup_In _ _ _ Ha) Hpa). lia.
  - assert (i <> j) as Hij' by congruence.
    pose proof (IH i j Hij' Ha Hb Hpa Hpb). destruct (p x); lia.
Qed.

Lemma count_zero {A} (p : A -> bool) (l : list A) :
  (forall y, In y l -> p y = false) -> count p l = 0%nat.
Proof.
  induction l as [|x l IH]; intros H; [reflexivity|].
  rewrite count_cons, H by (left; reflexivity). simpl. apply IH. intros y Hy. apply H. right. exact Hy.
Qed.

(** With pairwise distinct identifiers, a member's identifier occurs once. *)
Lemma count_nodup_ident (l : list StructMember) (m : StructMember) :
  NoDup (map member_identifier l) -> In m l ->
  (count (fun x => String.eqb (member_identifier x) (member_identifier m)) l <= 1)%nat.
Proof.
  induction l as [|x l IH]; intros Hnd Hin; [destruct Hin|].
  simpl in Hnd. apply NoDup_cons in Hnd as [Hx Hnd]. rewrite count_cons.
  destruct Hin as [<-|Hin].
  - rewrite String.eqb_refl, count_zero; [lia|].
    intros y Hy. apply String.eqb_neq. intros Heq. apply Hx.
    apply list_elem_of_In, in_map_iff. eauto.
  - destruct (String.eqb (member_identifier x) (member_identifier m)) eqn:E.
    + apply String.eqb_eq in E. exfalso. apply Hx. rewrite E.
      apply list_elem_of_In, in_map_iff. eauto.
    + specialize (IH Hnd Hin). lia.
Qed.

Lemma res_iter_total {A} (f : A -> Result unit) (l : list A) :
  (forall x, In x l -> f x = Ok tt \/ exists e, f x = Err e) ->
  res_iter f l = Ok tt \/ exists e, res_iter f l = Err e.
Proof.
  induction l as [|x l IH]; intros H; simpl; [left; reflexivity|].
  destruct (H x (or_introl eq_refl)) as [->|[e ->]]; simpl; [|eauto].
  apply IH. intros y Hy. apply H. right. exact Hy.
Qed.

(** [res_iter] over steps that each succeed or fail with an error satisfying
    [P] fails with such an error as soon as one step fails. *)
Lemma res_iter_err {A} (P : RuneParserError -> Prop) (f : A -> Result unit) (l : list A) :
  (forall x, In x l -> f x = Ok tt \/ exists e, P e /\ f x = Err e) ->
  (exists x, In x l /\ f x <> Ok tt) ->
  exists e, P e /\ res_iter f l = Err e.
Proof.
  induction l as [|x l IH]; intros H [y [Hy Hne]]; [destruct Hy|]. simpl.
  destruct (H x (or_introl eq_refl)) as [Hx|[e [He Hx]]]; rewrite Hx; simpl; [|eauto].
  destruct Hy as [<-|Hy]; [congruence|].
  apply IH; [intros z Hz; apply H; right; exact Hz | eauto].
Qed.

Lemma validate_struct_total (s : StructDefinition) :
  validate_struct s = Ok tt \/ exists e, validate_struct s = Err e.
Proof.
  unfold validate_struct. destruct (Nat.ltb 1 _); [eauto|].
  apply res_iter_total. intros m _.
  repeat match goal with |- context [if ?c then _ else _] => destruct c end; eauto.
Qed.

Lemma res_fold_total {A B} (f : B -> A -> Result B) (acc : B) (l : list A) :
  (forall b x, (exists b', f b x = Ok b') \/ exists e, f b x = Err e) ->
  (exists b, res_fold f acc l = Ok b) \/ exists e, res_fold f acc l = Err e.
Proof.
  intros H. revert acc. induction l as [|x l IH]; intros acc; simpl; [eauto|].
  destruct (H acc x) as [[b' ->]|[e ->]]; simpl; eauto.
Qed.

Lemma check_names_total (l : list string) :
  check_names l = Ok tt \/ exists e, check_names l = Err e.
Proof.
  induction l as [|x l IH]; simpl; [auto|]. destruct (existsb _ _); eauto.
Qed.

Lemma validate_bitfields_total (files : list RuneFileDescription) :
  validate_bitfields files = Ok tt \/ exists e, validate_bitfields files = Err e.
Proof.
  apply res_iter_total. intros f _. apply res_iter_total. intros b _.
  unfold validate_bitfield.
  match goal with |- context [res_fold ?f ?a ?l] =>
    destruct (res_fold_total f a l) as [[t Ht]|[e He]] end.
  - intros t m. cbv zeta.
    repeat match goal with |- context [if ?c then _ else _] => destruct c end; eauto.
  - rewrite Ht. simpl. destruct (validate_bitfield_size _ _); eauto.
  - rewrite He. simpl. eauto.
Qed.

Lemma validate_enums_total (files : list RuneFileDescription) :
  validate_enums files = Ok tt \/ exists e, validate_enums files = Err e.
Proof.
  apply res_iter_total. intros f _. apply res_iter_total. intros en _.
  unfold validate_enum. apply res_iter_total. intros m _.
  repeat match goal with |- context [if ?c then _ else _] => destruct c end; eauto.
Qed.

Lemma validate_structs_err (files : list RuneFileDescription) (file : RuneFileDescription)
    (s : StructDefinition) (e : RuneParserError) :
  In file files -> In s (structs (definitions file)) -> validate_struct s = Err e ->
  exists e', validate_structs files = Err e'.
Proof.
  intros Hf Hs He. unfold validate_structs.
  destruct (res_iter_err (fun _ => True)
              (fun f => res_iter validate_struct (structs (definitions f))) files) as [e' [_ H]].
  - intros f _. destruct (res_iter_total validate_struct (structs (definitions f))) as [H|[e' H]];
      [intros x _; apply validate_struct_total | auto | eauto].
  - exists file. split; [exact Hf|].
    destruct (res_iter_err (fun _ => True) validate_struct (structs (definitions file))) as [e'' [_ H]].
    + intros x _. destruct (validate_struct_total x) as [H|[e'' H]]; eauto.
    + exists s. split; [exact Hs | congruence].
    + congruence.
  - eauto.
Qed.

(** Validation of files holding some struct runs [validate_structs] unless
    an earlier check already failed. *)
Lemma validate_parsed_files_err (files : list RuneFileDescription) (file : RuneFileDescription)
    (s : StructDefinition) (e : RuneParserError) :
  In file files -> In s (structs (definitions file)) -> validate_struct s = Err e ->
  exists e', validate_parsed_files files = Err e'.
Proof.
  intros Hf Hs He. unfold validate_parsed_files, validate_names.
  assert (In (struct_name s) (collect_names files)) as Hn.
  { unfold collect_names. apply in_flat_map. exists file. split; [exact Hf|].
    rewrite !in_app_iff. right; right; right. apply in_map. exact Hs. }
  destruct (collect_names files) as [|n ns] eqn:E; [destruct Hn|].
  destruct (check_names_total (n :: ns)) as [->|[e' ->]]; simpl; [|eauto].
  destruct (validate_bitfields_total files) as [->|[e' ->]]; simpl; [|eauto].
  destruct (validate_enums_total files) as [->|[e' ->]]; simpl; [|eauto].
  eapply validate_structs_err; eauto.
Qed.

Lemma index_count_two (s : StructDefinition) (i j : nat) (mi mj : StructMember) :
  i <> j -> struct_members s !! i = Some mi -> struct_members s !! j = Some mj ->
  FieldIndex_value (member_index mi) = FieldIndex_value (member_index mj) ->
  Nat.ltb 1 (count (fun x => FieldIndex_value (member_index x) =? FieldIndex_value (member_index mi))
                   (struct_members s)) = true.
Proof.
  intros Hij Hi Hj Heq. apply Nat.ltb_lt. eapply count_two; eauto.
  - apply Z.eqb_refl.
  - rewrite Heq. apply Z.eqb_refl.
Qed.

Lemma struct_index_collision_err (s : StructDefinition) (i j : nat) (mi mj : StructMember) :
  i <> j -> struct_members s !! i = Some mi -> struct_members s !! j = Some mj ->
  FieldIndex_value (member_index mi) = FieldIndex_value (member_index mj) ->
  exists e, validate_struct s = Err e.
Proof.
  intros Hij Hi Hj Heq. unfold validate_struct. cbv zeta.
  destruct (Nat.ltb 1 _); [eauto|].
  destruct (res_iter_err (fun _ => True)
    (fun member =>
      if Nat.ltb 1 (count (fun x => FieldIndex_value (member_index x) =? FieldIndex_value (member_index member))
                          (struct_members s)) then Err IndexCollision
      else if existsb (fun r => FieldIndex_eq r (member_index member)) (struct_reserved s) then Err UseOfReservedIndex
      else if Nat.ltb 1 (count (fun x => String.eqb (member_identifier x) (member_identifier member))
                              (struct_members s)) then Err IdentifierCollision
      else Ok tt) (struct_members s)) as [e [_ He]].
  - intros m _. repeat match goal with |- context [if ?c then _ else _] => destruct c end; eauto.
  - exists mi. split; [eapply lookup_In; eauto|].
    rewrite (index_count_two s i j mi mj Hij Hi Hj Heq). discriminate.
  - eauto.
Qed.

(** C4 (amended): for every struct [s] of a file of [files]:
    (a) more than one member at the verifier alias makes the struct's check
    fail with [IndexCollision];
    (b) two members whose indexes have the same value (the alias having the
    value 0) make it fail with [IndexCollision] when no member is on a
    reserved index and the identifiers are pairwise distinct (otherwise an
    earlier member may be reported for those);
    (c) in either case the whole validation of [files] fails with an error.
    Messages are not validated (see [C4_counterexample]). *)
Theorem C4_struct_index_collisions (files : list RuneFileDescription) (file : RuneFileDescription)
    (s : StructDefinition) (Hfile : In file files) (Hs : In s (structs (definitions file))) :
  ((1 < count (fun x => is_verifier (member_index x)) (struct_members s))%nat ->
     validate_struct s = Err IndexCollision)
  /\ (forall (i j : nat) (mi mj : StructMember),
        i <> j -> struct_members s !! i = Some mi -> struct_members s !! j = Some mj ->
        FieldIndex_value (member_index mi) = FieldIndex_value (member_index mj) ->
        (forall m, In m (struct_members s) ->
           existsb (fun r => FieldIndex_eq r (member_index m)) (struct_reserved s) = false) ->
        NoDup (map member_identifier (struct_members s)) ->
        validate_struct s = Err IndexCollision)
  /\ (((1 < count (fun x => is_verifier (member_index x)) (struct_members s))%nat
       \/ exists (i j : nat) (mi mj : StructMember),
            i <> j /\ struct_members s !! i = Some mi /\ struct_members s !! j = Some mj
            /\ FieldIndex_value (member_index mi) = FieldIndex_value (member_index mj)) ->
      exists e, validate_parsed_files files = Err e).
Proof.
  assert (Ha : (1 < count (fun x => is_verifier (member_index x)) (struct_members s))%nat ->
               validate_struct s = Err IndexCollision).
  { intros H. apply Nat.ltb_lt in H. unfold validate_struct. cbv zeta. rewrite H. reflexivity. }
  split; [exact Ha|]. split.
  - intros i j mi mj Hij Hi Hj Heq Hres Hnd. unfold validate_struct. cbv zeta.
    destruct (Nat.ltb 1 _); [reflexivity|].
    destruct (res_iter_err (fun e => e = IndexCollision)
      (fun member =>
        if Nat.ltb 1 (count (fun x => FieldIndex_value (member_index x) =? FieldIndex_value (member_index member))
                            (struct_members s)) then Err IndexCollision
        else if existsb (fun r => FieldIndex_eq r (member_index member)) (struct_reserved s) then Err UseOfReservedIndex
        else if Nat.ltb 1 (count (fun x => String.eqb (member_identifier x) (member_identifier member))
                                (struct_members s)) then Err IdentifierCollision
        else Ok tt) (struct_members s)) as [e [-> He]].
    + intros m Hm. destruct (Nat.ltb 1 _); [eauto|].
      rewrite (Hres m Hm).
      pose proof (count_nodup_ident (struct_members s) m Hnd Hm) as Hc.
      apply Nat.ltb_ge in Hc. rewrite Hc. left. reflexivity.
    + exists mi. split; [eapply lookup_In; eauto|].
      rewrite (index_count_two s i j mi mj Hij Hi Hj Heq). discriminate.
    + exact He.
  - intros [H|[i [j [mi [mj [Hij [Hi [Hj Heq]]]]]]]].
    + eapply validate_parsed_files_err; eauto.
    + destruct (struct_index_collision_err s i j mi mj Hij Hi Hj Heq) as [e He].
      eapply validate_parsed_files_err; eauto.
Qed.

Lemma C4_struct_index_collisions_witness :
  validate_struct verifier_and_zero_struct = Err IndexCollision
  /\ exists e, validate_parsed_files [verifier_and_zero_file] = Err e.
Proof.
  destruct (C4_struct_index_collisions [verifier_and_zero_file] verifier_and_zero_file
              verifier_and_zero_struct) as [_ [Hb Hc]].
  - left. reflexivity.
  - left. reflexivity.
  - split.
    + apply (Hb 0%nat 1%nat
               (mkMember "v" (MT_Primitive U8) Verifier) (mkMember "w" (MT_Primitive U8) (Numeric 0)));
        try reflexivity; try discriminate.
      all: first [intros m _; reflexivity | apply (bool_decide_unpack _); vm_compute; exact I].
    + apply Hc. right. exists 0%nat, 1%nat,
        (mkMember "v" (MT_Primitive U8) Verifier), (mkMember "w" (MT_Primitive U8) (Numeric 0)).
      repeat split; try reflexivity; discriminate.
Defined.

(** ** The Size Estimator *)

Lemma optimal_encoded_data_size_amended (p : N) :
  payload_off_boundaries p -> optimal_encoded_data_size p = Ok (amended_encoded_data_size p).
Proof.
  intros [_ [_ Hmax]]. unfold optimal_encoded_data_size, amended_encoded_data_size. cbv zeta.
  destruct (p =? 0)%N; [reflexivity|].
  destruct (_ || _)%N; [reflexivity|].
  destruct (N.ltb_spec p 255), (N.leb_spec p 254), (N.ltb_spec p 65535), (N.leb_spec p 65534),
    (N.ltb_spec p 4294967295); try (f_equal; lia); lia.
Qed.

Lemma optimal_loop_sum (l : list MessageField) (ps : list N) (t : N) :
  Forall2 (fun f p => full_encoded_size false f = Ok (Some p) /\ payload_off_boundaries p) l ps ->
  optimal_loop l t = Ok (t + sumN (map amended_encoded_data_size ps))%N.
Proof.
  intros H. revert t. induction H as [|f p l ps [Hf Hp] _ IH]; intros t; simpl.
  - f_equal. lia.
  - rewrite Hf. simpl. rewrite (optimal_encoded_data_size_amended p Hp). simpl.
    rewrite IH. f_equal. lia.
Qed.

(** C6 (counterexample): a message whose only field has a zero-byte payload
    has optimal size 0, not the 1-byte header the claim counts; and a
    message with one [[u8; 4]] field has optimal size 5, not the 6 of a
    header, a 1-byte length and 4 payload bytes. *)
Lemma C6_counterexample :
  optimal_full_encoded_size (mkMessage "M" [mkField "e" FT_Empty (Numeric 0)] []) = Ok 0%N
  /\ spec_field_optimal_size false 0 = 1%N
  /\ optimal_full_encoded_size
       (mkMessage "M" [mkField "a" (FT_Array (mkArray (AT_Primitive U8) (Integer 4 Decimal))) (Numeric 0)] [])
     = Ok 5%N
  /\ spec_field_optimal_size true 4 = 6%N.
Proof. vm_compute. repeat split. Qed.

(** C6 (amended): a sub-message field's payload is the sub-message's
    optimal size; and when every field's payload [p] is known and off the
    range boundaries (p is not 255 or 65535, and p < 2^32 - 1), the optimal
    size of the message is the sum over its fields of
    [amended_encoded_data_size p]: 0 for an empty payload, 1 + p for p in
    1, 2, 4, 8, 2 + p up to 254, 3 + p up to 65534, and 5 + p above. *)
Theorem C6_optimal_size :
  (forall (identifier n : string) (m : MessageDefinition) (index : FieldIndex),
     full_encoded_size false (mkField identifier (FT_UserDefined n (MessageLink m)) index)
     = (let* s := optimal_full_encoded_size m in Ok (Some s)))
  /\ (forall (n : string) (fields : list MessageField) (reserved : list FieldIndex) (payloads : list N),
        Forall2 (fun f p => full_encoded_size false f = Ok (Some p) /\ payload_off_boundaries p)
                fields payloads ->
        optimal_full_encoded_size (mkMessage n fields reserved)
        = Ok (sumN (map amended_encoded_data_size payloads))).
Proof.
  split; [reflexivity|].
  intros n fields reserved payloads H. rewrite optimal_unfold, (optimal_loop_sum _ _ _ H).
  reflexivity.
Qed.

Lemma C6_optimal_size_witness :
  optimal_full_encoded_size
    (mkMessage "M" [mkField "a" (FT_Array (mkArray (AT_Primitive U8) (Integer 4 Decimal))) (Numeric 0);
                    mkField "b" (FT_Primitive U32) (Numeric 1);
                    mkField "c" (FT_Array (mkArray (AT_Primitive U8) (Integer 300 Decimal))) (Numeric 2)] [])
  = Ok (sumN (map amended_encoded_data_size [4%N; 4%N; 300%N])).
Proof.
  apply (proj2 C6_optimal_size).
  repeat constructor; vm_compute; congruence.
Defined.

Lemma field_at_In (i : Z) (fields : list MessageField) (f : MessageField) :
  field_at i fields = Some f -> In f fields.
Proof. unfold field_at. intros H. apply find_some in H. tauto. Qed.












(* ================================================================== *)
(** * Further properties of the code *)

(** ** Numeric literal equality ([src/scanner.rs]) *)

Lemma NumericLiteral_eq_refl (x : NumericLiteral) : NumericLiteral_eq x x = true.
Proof.
  destruct x; simpl;
    first [apply Z.eqb_refl | apply eqb_reflx | apply Qeq_bool_iff; reflexivity].
Qed.

(** A non-negative integral float above [u64::MAX as f64] saturates. *)
Lemma q_as_unsigned_saturates (f : Q) :
  Qle_bool f q_u64_max = false -> q_as_unsigned u64_max f = u64_max.
Proof.
  intros H. assert (Hlt : (q_u64_max < f)%Q).
  { apply Qnot_le_lt. intros Hle. apply Qle_bool_iff in Hle. congruence. }
  destruct f as [n d]. unfold Qlt, q_u64_max in Hlt. simpl in Hlt.
  unfold q_as_unsigned, q_trunc. simpl.
  assert (Hge : 2 ^ 64 <= Z.quot n (Zpos d)).
  { rewrite Z.quot_div_nonneg by lia. apply Z.div_le_lower_bound; lia. }
  unfold u64_max. lia.
Qed.

(** X: [NumericLiteral]'s [PartialEq] is reflexive, and symmetric except
    between a character and a float above 255: [AsciiChar] against [Float]
    saturates the float to [u8::MAX] while [Float] against [AsciiChar]
    first requires the float to be at most [u8::MAX]; the character 255
    and the float 300 are equal one way and not the other. *)
Theorem NumericLiteral_eq_reflexive_symmetric :
  (forall x, NumericLiteral_eq x x = true)
  /\ (forall x y,
        (forall c f, (x = AsciiChar c /\ y = Float f) \/ (x = Float f /\ y = AsciiChar c) ->
                     Qle_bool f (inject_Z u8_max) = true) ->
        NumericLiteral_eq x y = NumericLiteral_eq y x)
  /\ NumericLiteral_eq (AsciiChar 255) (Float 300) = true
  /\ NumericLiteral_eq (Float 300) (AsciiChar 255) = false.
Proof.
  split; [exact NumericLiteral_eq_refl|]. split; [|split; vm_compute; reflexivity].
  intros x y Hcf.
  destruct x as [a|a|a sa|a sa|a], y as [b|b|b sb|b sb|b]; simpl; try reflexivity;
    try apply Z.eqb_sym.
  - destruct (b <=? u8_max); [apply Z.eqb_sym | reflexivity].
  - (* character, float *)
    rewrite (Hcf a b (or_introl (conj eq_refl eq_refl))), andb_true_r.
    destruct (q_is_integral b && Qge0 b); [apply Z.eqb_sym | reflexivity].
  - destruct a, b; reflexivity.
  - (* boolean, float *)
    destruct (q_is_integral b && Qge0 b) eqn:E; simpl; [|reflexivity].
    destruct (Qle_bool b q_u64_max) eqn:Eb; simpl; [apply Z.eqb_sym|].
    rewrite q_as_unsigned_saturates by exact Eb.
    destruct a; reflexivity.
  - destruct (a <=? u8_max); [apply Z.eqb_sym | reflexivity].
  - destruct (_ && _ && _); [apply Z.eqb_sym | reflexivity].
  - destruct (_ && _ && _); [apply Z.eqb_sym | reflexivity].
  - (* float, character *)
    rewrite (Hcf b a (or_intror (conj eq_refl eq_refl))), andb_true_r.
    destruct (q_is_integral a && Qge0 a); [apply Z.eqb_sym | reflexivity].
  - (* float, boolean *)
    destruct (q_is_integral a && Qge0 a) eqn:E; simpl; [|reflexivity].
    destruct (Qle_bool a q_u64_max) eqn:Ea; simpl; [apply Z.eqb_sym|].
    rewrite q_as_unsigned_saturates by exact Ea.
    destruct b; reflexivity.
  - destruct (_ && _ && _); [apply Z.eqb_sym | reflexivity].
  - destruct (_ && _ && _); [apply Z.eqb_sym | reflexivity].
Qed.

(** ** Enum value validation ([src/validation.rs]) *)

(** X: [validate_value] is sound for the integer types: a literal the
    scanner can produce that it accepts for an integer primitive is an
    integer literal (of either sign) within the inclusive range of that
    primitive; other literal kinds are rejected. *)
Theorem validate_value_sound (p : Primitive) (v : NumericLiteral) (lo hi : Z) :
  literal_well_formed v -> integer_bounds p = Some (lo, hi) -> validate_value p v = Ok true ->
  exists z s, (v = PositiveInteger z s \/ v = NegativeInteger z s) /\ lo <= z <= hi.
Proof.
  intros Hwf Hb Hv.
  destruct p; simpl in Hb; try discriminate; injection Hb as <- <-;
    destruct v as [c|b|z s|z s|f]; simpl in Hv, Hwf; try discriminate;
    apply (f_equal (fun r => match r with Ok b => b | _ => false end)) in Hv;
    simpl in Hv; unfold range_contains in Hv;
    rewrite ?andb_true_iff, ?Z.leb_le, ?Z.ltb_lt in Hv;
    exists z, s; split; auto;
    unfold i8_min, i8_max, u8_max, i16_min, i16_max, u16_max, i32_min, i32_max, u32_max,
      i64_min, i64_max, u64_max in *; lia.
Qed.

Lemma validate_value_sound_witness :
  exists z s, (PositiveInteger 7 Decimal = PositiveInteger z s \/ PositiveInteger 7 Decimal = NegativeInteger z s)
              /\ 0 <= z <= u8_max.
Proof.
  apply (validate_value_sound U8 (PositiveInteger 7 Decimal) 0 u8_max).
  - simpl. unfold u64_max. lia.
  - reflexivity.
  - reflexivity.
Defined.

(** ** Name validation *)

Lemma check_names_NoDup (l : list string) :
  check_names l = if bool_decide (NoDup l) then Ok tt else Err NameCollision.
Proof.
  induction l as [|x r IH]; cbn [check_names].
  - rewrite bool_decide_eq_true_2; [reflexivity | constructor].
  - destruct (existsb (String.eqb x) r) eqn:E.
    + apply existsb_exists in E as [y [Hy Hxy]]. apply String.eqb_eq in Hxy. subst y.
      rewrite bool_decide_eq_false_2; [reflexivity|].
      intros Hnd. apply NoDup_cons in Hnd as [Hx _]. apply Hx, list_elem_of_In, Hy.
    + rewrite IH. assert (x ∉ r) as Hx.
      { intros Hx. apply list_elem_of_In in Hx.
        assert (existsb (String.eqb x) r = true) by (apply existsb_exists; exists x; split; [exact Hx | apply String.eqb_refl]).
        congruence. }
      destruct (bool_decide (NoDup r)) eqn:Er.
      * apply bool_decide_eq_true_1 in Er.
        rewrite bool_decide_eq_true_2; [reflexivity | apply NoDup_cons; auto].
      * apply bool_decide_eq_false_1 in Er.
        rewrite bool_decide_eq_false_2; [reflexivity|].
        intros Hnd. apply NoDup_cons in Hnd as [_ Hnd]. auto.
Qed.

(** X: [validate_names] accepts exactly the file sets whose collected names
    (bitfields, defines, enums, structs of every file) are non-empty and
    pairwise distinct, and reports [NameCollision] exactly when the list is
    non-empty and has a repetition. *)
Theorem validate_names_NoDup (files : list RuneFileDescription) :
  (validate_names files = Ok tt <-> collect_names files <> [] /\ NoDup (collect_names files))
  /\ (validate_names files = Err NameCollision
      <-> collect_names files <> [] /\ ~ NoDup (collect_names files)).
Proof.
  unfold validate_names. destruct (collect_names files) as [|n ns] eqn:E.
  - split; split; try discriminate; intros [H _]; congruence.
  - rewrite check_names_NoDup.
    destruct (bool_decide (NoDup (n :: ns))) eqn:B;
      [apply bool_decide_eq_true_1 in B | apply bool_decide_eq_false_1 in B];
      split; split; intros H; try discriminate; try tauto; try (split; [discriminate | tauto]).
Qed.

(** ** Bitfield validation *)

Lemma res_fold_sum {A} (f : Z -> A -> Result Z) (g : A -> Z) (a t : Z) (l : list A) :
  (forall acc x r, f acc x = Ok r -> r = acc + g x) ->
  res_fold f a l = Ok t -> t = fold_left (fun acc x => acc + g x) l a.
Proof.
  intros Hf. revert a. induction l as [|x l IH]; intros a H; simpl in *.
  - congruence.
  - destruct (f a x) as [r| |] eqn:E; simpl in H; try discriminate.
    rewrite (Hf _ _ _ E) in H. apply IH, H.
Qed.

Lemma res_fold_err {A B} (f : B -> A -> Result B) (a : B) (l : list A) :
  (forall acc x, (exists r, f acc x = Ok r) \/ exists e, f acc x = Err e) ->
  (exists x, In x l /\ forall acc, exists e, f acc x = Err e) ->
  exists e, res_fold f a l = Err e.
Proof.
  intros Hf [y [Hy Hyerr]]. revert a. induction l as [|x l IH]; intros a; [destruct Hy|]. simpl.
  destruct (Hf a x) as [[r Hr]|[e He]]; rewrite ?Hr, ?He; simpl; [|eauto].
  destruct Hy as [<-|Hy].
  - destruct (Hyerr a) as [e He]. congruence.
  - apply IH, Hy.
Qed.

(** X: a bitfield [validate_bitfields] accepts has an integer backing type
    ([bool], floats and 128-bit types are always rejected) and members whose
    bit sizes add up to at most the bit width of that type. *)
Theorem validate_bitfield_ok (b : BitfieldDefinition) :
  validate_bitfield b = Ok tt ->
  In (bitfield_backing_type b) [Char; I8; U8; I16; U16; I32; U32; I64; U64]
  /\ bitfield_total_bits b <= 8 * Z.of_N (encoded_max_data_size (bitfield_backing_type b)).
Proof.
  unfold validate_bitfield, bitfield_total_bits. cbv zeta.
  match goal with |- context [res_fold ?f ?a ?l] =>
    destruct (res_fold f a l) as [t| |] eqn:E; simpl; try discriminate;
    apply (res_fold_sum f (fun m => BitSize_absolute (bf_member_size m))) in E end.
  - rewrite <- E.
    destruct (bitfield_backing_type b); simpl; try discriminate;
      destruct (t <=? _) eqn:Et; try discriminate; apply Z.leb_le in Et; intros _;
      (split; [simpl; tauto | simpl; lia]).
  - intros acc x r.
    repeat match goal with |- context [if ?c then _ else _] => destruct c end; congruence.
Qed.

Lemma validate_bitfield_ok_witness :
  In (bitfield_backing_type three_bit_flags) [Char; I8; U8; I16; U16; I32; U32; I64; U64]
  /\ bitfield_total_bits three_bit_flags
     <= 8 * Z.of_N (encoded_max_data_size (bitfield_backing_type three_bit_flags)).
Proof. apply validate_bitfield_ok. vm_compute. reflexivity. Defined.

(** X: a bitfield with two members on the same bit slot, a member on a
    reserved slot, or two members with the same identifier is rejected
    by [validate_bitfields] with an error. *)
Theorem validate_bitfield_conflict_err (b : BitfieldDefinition) :
  let ms := bitfield_members b in
  (exists i j mi mj, i <> j /\ ms !! i = Some mi /\ ms !! j = Some mj
                     /\ bf_member_index mi = bf_member_index mj)
  \/ (exists m, In m ms /\ In (bf_member_index m) (bitfield_reserved_indexes b))
  \/ (exists i j mi mj, i <> j /\ ms !! i = Some mi /\ ms !! j = Some mj
                        /\ bf_member_identifier mi = bf_member_identifier mj) ->
  exists e, validate_bitfield b = Err e.
Proof.
  cbv zeta. intros H. unfold validate_bitfield. cbv zeta.
  match goal with |- context [res_fold ?f ?a ?l] =>
    destruct (res_fold_err f a l) as [e He]; [| |rewrite He; simpl; eauto] end.
  - intros acc x.
    repeat match goal with |- context [if ?c then _ else _] => destruct c end; eauto.
  - destruct H as [[i [j [mi [mj [Hij [Hi [Hj Heq]]]]]]]|[[m [Hm Hr]]|[i [j [mi [mj [Hij [Hi [Hj Heq]]]]]]]]].
    + exists mi. split; [eapply lookup_In; eauto|]. intros acc.
      replace (Nat.ltb 1 _) with true; [eauto|]. symmetry. apply Nat.ltb_lt.
      eapply (count_two _ _ i j mi mj); eauto; apply Z.eqb_eq; congruence.
    + exists m. split; [exact Hm|]. intros acc.
      destruct (Nat.ltb 1 _); [eauto|].
      replace (existsb _ _) with true; [eauto|]. symmetry. apply existsb_exists.
      exists (bf_member_index m). split; [exact Hr | apply Z.eqb_refl].
    + exists mi. split; [eapply lookup_In; eauto|]. intros acc.
      destruct (Nat.ltb 1 (count (fun x => bf_member_index x =? _) _)); [eauto|].
      destruct (existsb _ _); [eauto|].
      replace (Nat.ltb 1 _) with true; [eauto|]. symmetry. apply Nat.ltb_lt.
      eapply (count_two _ _ i j mi mj); eauto; apply String.eqb_eq; congruence.
Qed.

Lemma validate_bitfield_conflict_err_witness : exists e, validate_bitfield clashing_flags = Err e.
Proof.
  apply validate_bitfield_conflict_err. left.
  exists 0%nat, 1%nat, (mkBitfieldMember "a" (Unsigned 1) 0), (mkBitfieldMember "b" (Unsigned 1) 0).
  repeat split; lia.
Defined.

(** ** Enum and struct validation *)

(** X: an enum with two members whose values compare equal (in the
    cross-kind sense of [NumericLiteral]'s [PartialEq]), a member whose
    value equals a reserved value, or two members with the same identifier
    is rejected by [validate_enums] with an error. *)
Theorem validate_enum_conflict_err (e : EnumDefinition) :
  let ms := enum_members e in
  (exists i j mi mj, i <> j /\ ms !! i = Some mi /\ ms !! j = Some mj
                     /\ NumericLiteral_eq (enum_member_value mj) (enum_member_value mi) = true)
  \/ (exists m r, In m ms /\ In r (enum_reserved_values e)
                  /\ NumericLiteral_eq r (enum_member_value m) = true)
  \/ (exists i j mi mj, i <> j /\ ms !! i = Some mi /\ ms !! j = Some mj
                        /\ enum_member_identifier mi = enum_member_identifier mj) ->
  exists err, validate_enum e = Err err.
Proof.
  cbv zeta. intros H. unfold validate_enum. cbv zeta.
  match goal with |- context [res_iter ?f ?l] =>
    destruct (res_iter_err (fun _ => True) f l) as [err [_ Herr]]; [| |eauto] end.
  - intros x _. repeat match goal with |- context [if ?c then _ else _] => destruct c end; eauto.
  - destruct H as [[i [j [mi [mj [Hij [Hi [Hj Heq]]]]]]]|[[m [r [Hm [Hr Heq]]]]|[i [j [mi [mj [Hij [Hi [Hj Heq]]]]]]]]].
    + exists mi. split; [eapply lookup_In; eauto|].
      replace (Nat.ltb 1 _) with true; [discriminate|]. symmetry. apply Nat.ltb_lt.
      eapply (count_two _ _ i j mi mj); eauto. apply NumericLiteral_eq_refl.
    + exists m. split; [exact Hm|].
      destruct (Nat.ltb 1 _); [discriminate|].
      replace (existsb _ _) with true; [discriminate|]. symmetry. apply existsb_exists. eauto.
    + exists mi. split; [eapply lookup_In; eauto|].
      destruct (Nat.ltb 1 (count (fun x => NumericLiteral_eq _ _) _)); [discriminate|].
      destruct (existsb _ _); [discriminate|].
      replace (Nat.ltb 1 _) with true; [discriminate|]. symmetry. apply Nat.ltb_lt.
      eapply (count_two _ _ i j mi mj); eauto; apply String.eqb_eq; congruence.
Qed.

Lemma validate_enum_conflict_err_witness : exists err, validate_enum one_twice_enum = Err err.
Proof.
  apply validate_enum_conflict_err. left.
  exists 0%nat, 1%nat, (mkEnumMember "a" (PositiveInteger 1 Decimal)),
    (mkEnumMember "b" (Boolean true)).
  split; [lia|]. split; [reflexivity|]. split; [reflexivity|]. vm_compute. reflexivity.
Defined.

(** X: a struct with a member on a reserved index (the verifier alias and
    index 0 being the same index), or with two members of the same
    identifier, is rejected by [validate_structs] with an error. *)
Theorem validate_struct_conflict_err (s : StructDefinition) :
  let ms := struct_members s in
  (exists m r, In m ms /\ In r (struct_reserved s) /\ FieldIndex_eq r (member_index m) = true)
  \/ (exists i j mi mj, i <> j /\ ms !! i = Some mi /\ ms !! j = Some mj
                        /\ member_identifier mi = member_identifier mj) ->
  exists err, validate_struct s = Err err.
Proof.
  cbv zeta. intros H. unfold validate_struct. cbv zeta.
  destruct (Nat.ltb 1 _); [eauto|].
  match goal with |- context [res_iter ?f ?l] =>
    destruct (res_iter_err (fun _ => True) f l) as [err [_ Herr]]; [| |eauto] end.
  - intros x _. repeat match goal with |- context [if ?c then _ else _] => destruct c end; eauto.
  - destruct H as [[m [r [Hm [Hr Heq]]]]|[i [j [mi [mj [Hij [Hi [Hj Heq]]]]]]]].
    + exists m. split; [exact Hm|].
      destruct (Nat.ltb 1 _); [discriminate|].
      replace (existsb _ _) with true; [discriminate|]. symmetry. apply existsb_exists. eauto.
    + exists mi. split; [eapply lookup_In; eauto|].
      destruct (Nat.ltb 1 (count (fun x => FieldIndex_value _ =? _) _)); [discriminate|].
      destruct (existsb _ _); [discriminate|].
      replace (Nat.ltb 1 _) with true; [discriminate|]. symmetry. apply Nat.ltb_lt.
      eapply (count_two _ _ i j mi mj); eauto; apply String.eqb_eq; congruence.
Qed.

Lemma validate_struct_conflict_err_witness : exists err, validate_struct reserved_zero_struct = Err err.
Proof.
  apply validate_struct_conflict_err. left.
  exists (mkMember "x" (MT_Primitive U8) (Numeric 0)), Verifier.
  split; [left; reflexivity | split; [left; reflexivity | reflexivity]].
Defined.

(** ** What the Validator reads *)

Lemma validate_parsed_files_without_messages (files : list RuneFileDescription) :
  validate_parsed_files (map without_messages files) = validate_parsed_files files.
Proof.
  unfold validate_parsed_files, validate_names.
  assert (collect_names (map without_messages files) = collect_names files) as ->.
  { induction files as [|f files IH]; simpl; [reflexivity|]. rewrite IH. reflexivity. }
  assert (validate_bitfields (map without_messages files) = validate_bitfields files) as ->.
  { induction files as [|f files IH]; simpl; [reflexivity|]. unfold validate_bitfields in *.
    simpl. rewrite IH. reflexivity. }
  assert (validate_enums (map without_messages files) = validate_enums files) as ->.
  { induction files as [|f files IH]; simpl; [reflexivity|]. unfold validate_enums in *.
    simpl. rewrite IH. reflexivity. }
  assert (validate_structs (map without_messages files) = validate_structs files) as ->.
  { induction files as [|f files IH]; simpl; [reflexivity|]. unfold validate_structs in *.
    simpl. rewrite IH. reflexivity. }
  reflexivity.
Qed.

(** X: the Validator never reads messages: two file lists that differ only
    in their messages get the same verdict. *)
Theorem validate_parsed_files_ignores_messages (files files' : list RuneFileDescription) :
  map without_messages files = map without_messages files' ->
  validate_parsed_files files = validate_parsed_files files'.
Proof.
  intros H. rewrite <- (validate_parsed_files_without_messages files),
    <- (validate_parsed_files_without_messages files'), H. reflexivity.
Qed.

Lemma validate_parsed_files_ignores_messages_witness :
  validate_parsed_files message_verifier_and_zero
  = validate_parsed_files [rune_file "a" [] [] [] [] no_extensions [] [mkStruct "S" [] []]].
Proof. apply validate_parsed_files_ignores_messages. reflexivity. Defined.

(** ** The Constant Resolver *)

Lemma has_duplicate_NoDup {A} (name : A -> string) (l : list A) :
  has_duplicate name l = false <-> NoDup (map name l).
Proof.
  induction l as [|x r IH]; simpl.
  - split; [constructor | reflexivity].
  - rewrite orb_false_iff, NoDup_cons, <- IH. split.
    + intros [Hx Hr]. split; [|exact Hr]. intros Hin. apply list_elem_of_In, in_map_iff in Hin as [y [Hy Hyr]].
      assert (existsb (fun y => String.eqb (name x) (name y)) r = true) as E.
      { apply existsb_exists. exists y. split; [exact Hyr|]. apply String.eqb_eq. congruence. }
      congruence.
    + intros [Hx Hr]. split; [|exact Hr]. apply not_true_iff_false. intros E.
      apply existsb_exists in E as [y [Hyr Hxy]]. apply String.eqb_eq in Hxy. apply Hx.
      apply list_elem_of_In, in_map_iff. eauto.
Qed.

Lemma res_map_err {A} (P : RuneParserError -> Prop) (f : A -> Result A) (l : list A) (e : RuneParserError) :
  (forall x e', f x = Err e' -> P e') -> res_map f l = Err e -> P e.
Proof.
  intros Hf. induction l as [|x l IH]; simpl; [discriminate|].
  destruct (f x) eqn:E; simpl; try discriminate.
  - destruct (res_map f l); simpl; try discriminate. intros H. apply IH. congruence.
  - intros H. injection H as <-. eauto.
Qed.

Lemma resolve_define_err (dl : list DefineDefinition) (d : DefineDefinition) (e : RuneParserError) :
  resolve_define dl d = Err e -> e = InvalidNumericValue.
Proof.
  unfold resolve_define. revert d. induction dl as [|u dl IH]; intros d; simpl; [discriminate|].
  destruct (String.eqb _ _); [|apply IH].
  destruct (define_value_of u) as [|[]]; simpl; try congruence. apply IH.
Qed.

Lemma attach_loop_not_err (i k : nat) (d : DefineDefinition) (rl : list RedefineDefinition) (e : RuneParserError) :
  attach_loop i k d rl <> Err e.
Proof.
  revert i d rl. induction k as [|k IH]; intros i d rl; simpl; [discriminate|].
  unfold index. destruct (rl !! i); simpl; [|discriminate].
  destruct (String.eqb _ _); [|apply IH].
  unfold swap_remove. destruct (decide _); [|discriminate]. destruct (last rl); simpl; [apply IH | discriminate].
Qed.

Lemma attach_redefinitions_not_err (ds : list DefineDefinition) (rl : list RedefineDefinition) (e : RuneParserError) :
  attach_redefinitions ds rl <> Err e.
Proof.
  revert rl. induction ds as [|d ds IH]; intros rl; simpl; [discriminate|].
  unfold attach_redefinition.
  destruct (attach_loop 0 (length rl) d rl) as [[d' rl']|e'|] eqn:E; simpl.
  - specialize (IH rl'). destruct (attach_redefinitions ds rl') as [[]| |]; simpl; congruence.
  - exfalso. eapply attach_loop_not_err. exact E.
  - discriminate.
Qed.

Lemma process_define_files_err (dl : list DefineDefinition) (rl : list RedefineDefinition)
    (files : list RuneFileDescription) (e : RuneParserError) :
  process_define_files dl rl files = Err e -> e = InvalidNumericValue.
Proof.
  revert rl. induction files as [|f files IH]; intros rl H; simpl in H; [discriminate|].
  unfold process_define_file in H.
  destruct (attach_redefinitions (defines (definitions f)) rl) as [[ds rl']|e1|] eqn:E;
    simpl in H; [| exfalso; eapply attach_redefinitions_not_err; exact E | discriminate].
  destruct (res_map (resolve_message dl) (messages (definitions f))) as [ms|e1|] eqn:Em;
    simpl in H; [| |discriminate].
  - destruct (process_define_files dl rl' files) as [[]|e1|] eqn:Ep; simpl in H; try discriminate.
    injection H as <-. apply (IH rl'). exact Ep.
  - injection H as <-. revert Em. apply (res_map_err (fun e => e = InvalidNumericValue)).
    intros m e2 Hm. unfold resolve_message in Hm.
    destruct (res_map (resolve_field dl) (message_fields m)) eqn:Ef; simpl in Hm; try discriminate.
    injection Hm as <-. revert Ef. apply (res_map_err (fun e => e = InvalidNumericValue)).
    intros fd e3 Hfd. destruct fd as [id [| |[dt [v s|u]]|n l] idx]; simpl in Hfd; try discriminate.
    destruct (resolve_define dl u) eqn:Hu; simpl in Hfd; try discriminate.
    injection Hfd as <-. eapply resolve_define_err. exact Hu.
Qed.

(** X: [parse_define_statements] reports [MultipleDefinitions] exactly when
    two defines (in any files) share a name, [MultipleRedefinitions] exactly
    when the define names are distinct and two redefines share a name, and
    fails with no other error than these and [InvalidNumericValue] (a define
    used as an array count whose value is not a positive integer). *)
Theorem parse_define_statements_errors (files : list RuneFileDescription) :
  (parse_define_statements files = Err MultipleDefinitions
   <-> ~ NoDup (map define_name (all_defines files)))
  /\ (parse_define_statements files = Err MultipleRedefinitions
      <-> NoDup (map define_name (all_defines files)) /\ ~ NoDup (map redefine_name (all_redefines files)))
  /\ (forall e, parse_define_statements files = Err e ->
        e = MultipleDefinitions \/ e = MultipleRedefinitions \/ e = InvalidNumericValue).
Proof.
  unfold parse_define_statements, all_defines, all_redefines. cbv zeta.
  remember (flat_map (fun f => defines (definitions f)) files) as dl.
  remember (flat_map (fun f => redefines (definitions f)) files) as rl.
  pose proof (has_duplicate_NoDup define_name dl) as Hd.
  pose proof (has_duplicate_NoDup redefine_name rl) as Hr.
  assert (forall e, (let* p := process_define_files dl rl files in Ok (fst p)) = Err e ->
                    e = InvalidNumericValue) as Hp.
  { intros e. destruct (process_define_files dl rl files) eqn:E; simpl; try discriminate.
    intros H. injection H as <-. eapply process_define_files_err. exact E. }
  destruct (has_duplicate define_name dl);
    [|destruct (has_duplicate redefine_name rl)].
  - split; [split; [intros _ Hn; apply Hd in Hn; discriminate | reflexivity]|].
    split; [split; [discriminate | intros [Hn _]; apply Hd in Hn; discriminate]|].
    intros e H. injection H as <-. auto.
  - split; [split; [discriminate | intros Hn; exfalso; apply Hn, Hd; reflexivity]|].
    split; [split; [intros _; split; [apply Hd; reflexivity | intros Hn; apply Hr in Hn; discriminate] | reflexivity]|].
    intros e H. injection H as <-. auto.
  - split; [split; [intros H; apply Hp in H; discriminate | intros Hn; exfalso; apply Hn, Hd; reflexivity]|].
    split; [split; [intros H; apply Hp in H; discriminate | intros [_ Hn]; exfalso; apply Hn, Hr; reflexivity]|].
    intros e H. apply Hp in H. auto.
Qed.

Lemma res_map_map {A B} (f : A -> Result A) (g : A -> B) (l l' : list A) :
  (forall x y, f x = Ok y -> g y = g x) -> res_map f l = Ok l' -> map g l' = map g l.
Proof.
  intros Hf. revert l'. induction l as [|x l IH]; intros l' H; simpl in H.
  - injection H as <-. reflexivity.
  - destruct (f x) as [y| |] eqn:E; simpl in H; try discriminate.
    destruct (res_map f l) as [r| |]; simpl in H; try discriminate.
    injection H as <-. simpl. rewrite (Hf _ _ E), (IH r eq_refl). reflexivity.
Qed.

Lemma res_map_In {A} (f : A -> Result A) (l l' : list A) (y : A) :
  res_map f l = Ok l' -> In y l' -> exists x, In x l /\ f x = Ok y.
Proof.
  revert l'. induction l as [|x l IH]; intros l' H Hy; simpl in H.
  - injection H as <-. destruct Hy.
  - destruct (f x) as [x'| |] eqn:E; simpl in H; try discriminate.
    destruct (res_map f l) as [r| |] eqn:Er; simpl in H; try discriminate.
    injection H as <-. destruct Hy as [Hxy|Hy'].
    + subst y. exists x. split; [left; reflexivity | exact E].
    + destruct (IH r eq_refl Hy') as [z [Hz Hfz]]. exists z. split; [right; exact Hz | exact Hfz].
Qed.

Lemma attach_loop_keeps (i k : nat) (d d' : DefineDefinition) (rl rl' : list RedefineDefinition) :
  attach_loop i k d rl = Ok (d', rl') ->
  define_name d' = define_name d /\ define_value d' = define_value d.
Proof.
  revert i d rl. induction k as [|k IH]; intros i d rl H; simpl in H.
  - injection H as <- <-. auto.
  - unfold index in H. destruct (rl !! i) as [r|]; simpl in H; [|discriminate].
    destruct (String.eqb _ _).
    + destruct (swap_remove rl i); simpl in H; try discriminate. apply IH in H. simpl in H. exact H.
    + eapply IH. exact H.
Qed.

Lemma attach_redefinitions_keeps (ds ds' : list DefineDefinition) (rl rl' : list RedefineDefinition) :
  attach_redefinitions ds rl = Ok (ds', rl') ->
  map (fun u => mkDefine (define_name u) (define_value u) None) ds'
  = map (fun u => mkDefine (define_name u) (define_value u) None) ds.
Proof.
  revert ds' rl. induction ds as [|d ds IH]; intros ds' rl H; simpl in H.
  - injection H as <- <-. reflexivity.
  - unfold attach_redefinition in H.
    destruct (attach_loop 0 (length rl) d rl) as [[d1 rl1]| |] eqn:E; simpl in H; try discriminate.
    destruct (attach_redefinitions ds rl1) as [[ds1 rl2]| |] eqn:E2; simpl in H; try discriminate.
    injection H as <- <-. simpl. apply attach_loop_keeps in E as [-> ->].
    rewrite (IH ds1 rl1 E2). reflexivity.
Qed.

Lemma resolve_define_keeps (dl : list DefineDefinition) (d d' : DefineDefinition) :
  resolve_define dl d = Ok d' -> define_name d' = define_name d /\ redefinition d' = redefinition d.
Proof.
  unfold resolve_define. revert d. induction dl as [|u dl IH]; intros d H; simpl in H.
  - injection H as <-. auto.
  - destruct (String.eqb _ _); [|apply IH, H].
    destruct (define_value_of u) as [|[| | v s| |]]; simpl in H; try discriminate.
    apply IH in H. simpl in H. exact H.
Qed.

Lemma resolve_field_unresolve (dl : list DefineDefinition) (fd fd' : MessageField) :
  resolve_field dl fd = Ok fd' -> unresolve_field fd' = unresolve_field fd.
Proof.
  destruct fd as [id [| |[dt [v s|u]]|n l] idx]; simpl; intros H; try (injection H as <-; reflexivity).
  destruct (resolve_define dl u) as [u'| |] eqn:E; simpl in H; try discriminate.
  injection H as <-. apply resolve_define_keeps in E as [Hn Hr]. simpl. rewrite Hn, Hr. reflexivity.
Qed.

Lemma process_define_files_unresolve (dl : list DefineDefinition) (rl rl' : list RedefineDefinition)
    (files out : list RuneFileDescription) :
  process_define_files dl rl files = Ok (out, rl') -> map unresolve_file out = map unresolve_file files.
Proof.
  revert rl out. induction files as [|f files IH]; intros rl out H; simpl in H.
  - injection H as <- <-. reflexivity.
  - unfold process_define_file in H.
    destruct (attach_redefinitions (defines (definitions f)) rl) as [[ds rl1]| |] eqn:E; simpl in H; try discriminate.
    destruct (res_map (resolve_message dl) (messages (definitions f))) as [ms| |] eqn:Em; simpl in H; try discriminate.
    destruct (process_define_files dl rl1 files) as [[fs rl2]| |] eqn:Ep; simpl in H; try discriminate.
    injection H as <- <-. simpl. rewrite (IH rl1 fs Ep). f_equal.
    unfold unresolve_file, set_definitions, with_defines_messages. simpl.
    rewrite (attach_redefinitions_keeps _ _ _ _ E).
    assert (map unresolve_message ms = map unresolve_message (messages (definitions f))) as ->;
      [|reflexivity].
    apply (res_map_map (resolve_message dl) unresolve_message); [|exact Em].
    intros m m' Hm. unfold resolve_message in Hm.
    destruct (res_map (resolve_field dl) (message_fields m)) as [fs'| |] eqn:Ef; simpl in Hm; try discriminate.
    injection Hm as <-. unfold unresolve_message. simpl.
    rewrite (res_map_map (resolve_field dl) unresolve_field _ _ (resolve_field_unresolve dl) Ef).
    reflexivity.
Qed.

(** X: when it succeeds, [parse_define_statements] changes nothing but the
    redefinitions attached to defines and the values written into the
    element counts of message array fields: paths, names, every other
    declaration (structs included), the define names and values, the
    message and field shapes are preserved. *)
Theorem parse_define_statements_preserves (files out : list RuneFileDescription) :
  parse_define_statements files = Ok out -> map unresolve_file out = map unresolve_file files.
Proof.
  unfold parse_define_statements. cbv zeta.
  destruct (has_duplicate _ _); [discriminate|]. destruct (has_duplicate _ _); [discriminate|].
  destruct (process_define_files _ _ files) as [[fs rl]| |] eqn:E; simpl; try discriminate.
  intros H. injection H as <-. eapply process_define_files_unresolve. exact E.
Qed.

Lemma parse_define_statements_preserves_witness :
  map unresolve_file (match parse_define_statements redefined_array_size with Ok o => o | _ => [] end)
  = map unresolve_file redefined_array_size.
Proof. apply parse_define_statements_preserves. vm_compute. reflexivity. Defined.

Lemma resolve_define_nomatch (dl : list DefineDefinition) (d : DefineDefinition) :
  (forall u, In u dl -> define_name u <> define_name d) -> resolve_define dl d = Ok d.
Proof.
  unfold resolve_define. induction dl as [|u dl IH]; intros H; simpl; [reflexivity|].
  replace (String.eqb (define_name u) (define_name d)) with false.
  - apply IH. intros v Hv. apply H. right. exact Hv.
  - symmetry. apply String.eqb_neq. apply H. left. reflexivity.
Qed.

(** With distinct define names, a resolved count naming a define holds that
    define's positive integer value. *)
Lemma resolve_define_value (dl : list DefineDefinition) (d d' u : DefineDefinition) :
  NoDup (map define_name dl) -> resolve_define dl d = Ok d' -> In u dl -> define_name u = define_name d ->
  exists v s, define_value_of u = DV_NumericLiteral (PositiveInteger v s)
              /\ define_value d' = DV_NumericLiteral (PositiveInteger v s).
Proof.
  revert d. induction dl as [|w dl IH]; intros d Hnd H Hu Hn; [destruct Hu|].
  simpl in Hnd. apply NoDup_cons in Hnd as [Hw Hnd].
  unfold resolve_define in H. simpl in H.
  destruct (String.eqb (define_name w) (define_name d)) eqn:E.
  - apply String.eqb_eq in E.
    destruct (define_value_of w) as [|[| | v s| |]] eqn:Ev; simpl in H; try discriminate.
    match type of H with res_fold _ ?a dl = _ => change (resolve_define dl a = Ok d') in H end.
    rewrite resolve_define_nomatch in H.
    + injection H as <-. destruct Hu as [<-|Hu].
      * exists v, s. auto.
      * exfalso. apply Hw. rewrite E, <- Hn. apply list_elem_of_In, in_map. exact Hu.
    + intros y Hy Hyn. simpl in Hyn. apply Hw. rewrite E, <- Hyn. apply list_elem_of_In, in_map. exact Hy.
  - destruct Hu as [<-|Hu].
    + apply String.eqb_neq in E. contradiction.
    + eapply IH; [exact Hnd | exact H | exact Hu | exact Hn].
Qed.

Lemma process_define_files_in (dl : list DefineDefinition) (rl rl' : list RedefineDefinition)
    (files out : list RuneFileDescription) (f' : RuneFileDescription) :
  process_define_files dl rl files = Ok (out, rl') -> In f' out ->
  exists f, In f files /\ res_map (resolve_message dl) (messages (definitions f)) = Ok (messages (definitions f')).
Proof.
  revert rl out. induction files as [|f files IH]; intros rl out H Hin; simpl in H.
  - injection H as <- <-. destruct Hin.
  - unfold process_define_file in H.
    destruct (attach_redefinitions (defines (definitions f)) rl) as [[ds rl1]| |]; simpl in H; try discriminate.
    destruct (res_map (resolve_message dl) (messages (definitions f))) as [ms| |] eqn:Em; simpl in H; try discriminate.
    destruct (process_define_files dl rl1 files) as [[fs rl2]| |] eqn:Ep; simpl in H; try discriminate.
    injection H as <- <-. destruct Hin as [<-|Hin].
    + exists f. split; [left; reflexivity | exact Em].
    + destruct (IH rl1 fs Ep Hin) as [g [Hg Hgm]]. exists g. split; [right; exact Hg | exact Hgm].
Qed.

(** X: after a successful [parse_define_statements], an element count of a
    message array field that names a define [u] of the input, with no
    redefinition attached (as the parser builds defines), carries exactly
    the positive integer value [u] declares: the counts are resolved from a
    copy of the defines taken before redefinitions are attached, so a
    [redefine] statement never changes them. *)
Theorem parse_define_statements_count_values (files out : list RuneFileDescription)
    (d u : DefineDefinition) :
  parse_define_statements files = Ok out ->
  In d (message_count_defines out) -> In u (all_defines files) -> define_name u = define_name d ->
  redefinition u = None ->
  exists v s, define_value u = DV_NumericLiteral (PositiveInteger v s)
              /\ define_value d = DV_NumericLiteral (PositiveInteger v s).
Proof.
  unfold parse_define_statements. cbv zeta. fold (all_defines files).
  destruct (has_duplicate define_name (all_defines files)) eqn:Hd; [discriminate|].
  apply has_duplicate_NoDup in Hd.
  destruct (has_duplicate _ _); [discriminate|].
  destruct (process_define_files _ _ files) as [[fs rl]| |] eqn:E; simpl; try discriminate.
  intros H Hd_in Hu Hn Hnone. injection H as <-.
  unfold message_count_defines in Hd_in.
  apply in_flat_map in Hd_in as [f' [Hf' Hd_in]].
  apply in_flat_map in Hd_in as [m' [Hm' Hd_in]].
  apply in_flat_map in Hd_in as [fd' [Hfd' Hd_in]].
  destruct (process_define_files_in _ _ _ _ _ f' E Hf') as [f [_ Hms]].
  destruct (res_map_In _ _ _ m' Hms Hm') as [m [_ Hm]].
  unfold resolve_message in Hm.
  destruct (res_map (resolve_field (all_defines files)) (message_fields m)) as [fs'| |] eqn:Ef;
    simpl in Hm; try discriminate. injection Hm as <-. simpl in Hfd'.
  destruct (res_map_In _ _ _ fd' Ef Hfd') as [fd [_ Hfd]].
  destruct fd as [id [| |[dt [v s|w]]|n l] idx]; simpl in Hfd;
    try (injection Hfd as <-; simpl in Hd_in; destruct Hd_in).
  destruct (resolve_define (all_defines files) w) as [w'| |] eqn:Ew; simpl in Hfd; try discriminate.
  injection Hfd as <-. simpl in Hd_in. destruct Hd_in as [<-|[]].
  assert (Hnw : define_name u = define_name w).
  { pose proof (resolve_define_keeps _ _ _ Ew) as [Hwn _]. congruence. }
  destruct (resolve_define_value (all_defines files) w w' u Hd Ew Hu Hnw) as [v [s' [H1 H2]]].
  exists v, s'. unfold define_value_of in H1. rewrite Hnone in H1. split; [exact H1 | exact H2].
Qed.

Lemma parse_define_statements_count_values_witness :
  exists v s, define_value (define "N" 4) = DV_NumericLiteral (PositiveInteger v s)
              /\ define_value (mkDefine "N" (DV_NumericLiteral (PositiveInteger 4 Decimal)) None)
                 = DV_NumericLiteral (PositiveInteger v s).
Proof.
  apply (parse_define_statements_count_values redefined_array_size
           (match parse_define_statements redefined_array_size with Ok o => o | _ => [] end)).
  - vm_compute. reflexivity.
  - vm_compute. left. reflexivity.
  - vm_compute. left. reflexivity.
  - reflexivity.
  - reflexivity.
Defined.

(** ** The Type Linker *)

Lemma find_none_intro {A} (p : A -> bool) (l : list A) :
  (forall x, In x l -> p x = false) -> List.find p l = None.
Proof.
  induction l as [|x l IH]; intros H; simpl; [reflexivity|].
  rewrite (H x (or_introl eq_refl)). apply IH. intros y Hy. apply H. right. exact Hy.
Qed.

(** X: looking up a name that no file declares as a bitfield, enum or
    struct, [find_data_definition] reports [InvalidTypeUse] when some file
    declares a message of that name, and [UndefinedIdentifier] otherwise. *)
Theorem find_data_definition_undeclared (fuel : nat) (identifier : string)
    (files : list RuneFileDescription) :
  (forall f, In f files ->
     (forall b, In b (bitfields (definitions f)) -> bitfield_name b <> identifier)
     /\ (forall e, In e (enums (definitions f)) -> enum_name e <> identifier)
     /\ (forall s, In s (structs (definitions f)) -> struct_name s <> identifier)) ->
  find_data_definition (S fuel) identifier files
  = if existsb (fun f => existsb (fun m => String.eqb identifier (message_name m))
                           (messages (definitions f))) files
    then Err InvalidTypeUse else Err UndefinedIdentifier.
Proof.
  intros H. cbn [find_data_definition].
  match goal with |- ?F files = _ =>
    assert (forall fs, (forall f, In f fs -> In f files) ->
              F fs = if existsb (fun f => existsb (fun m => String.eqb identifier (message_name m))
                                            (messages (definitions f))) fs
                     then Err InvalidTypeUse else Err UndefinedIdentifier) as G end.
  - induction fs as [|f fs IH]; intros Hfs; [reflexivity|].
    destruct (H f (Hfs f (or_introl eq_refl))) as [Hb [He Hs]].
    rewrite !find_none_intro.
    + simpl. destruct (existsb _ (messages (definitions f))); [reflexivity|].
      apply IH. intros g Hg. apply Hfs. right. exact Hg.
    + intros s Hs'. apply String.eqb_neq. intros Heq. apply (Hs s Hs'). congruence.
    + intros e He'. apply String.eqb_neq. intros Heq. apply (He e He'). congruence.
    + intros b Hb'. apply String.eqb_neq. intros Heq. apply (Hb b Hb'). congruence.
  - apply G. auto.
Qed.

Lemma find_data_definition_undeclared_witness :
  find_data_definition link_stack_depth "M" only_messages = Err InvalidTypeUse.
Proof.
  apply (find_data_definition_undeclared 255 "M" only_messages).
  intros f [<-|[]]. simpl. repeat split; intros x [].
Defined.

Lemma find_data_definition_linked (fuel : nat) (identifier : string) (files : list RuneFileDescription)
    (l : UserDefinitionLink) :
  find_data_definition fuel identifier files = Ok l -> l <> NoLink.
Proof.
  destruct fuel as [|fuel]; [discriminate|]. cbn [find_data_definition].
  match goal with |- ?F files = _ -> _ =>
    assert (forall fs, F fs = Ok l -> l <> NoLink) as G end; [|apply G].
  induction fs as [|f fs IH]; [discriminate|].
  destruct (List.find _ (bitfields _)); [intros H; injection H as <-; discriminate|].
  destruct (List.find _ (enums _)); [intros H; injection H as <-; discriminate|].
  destruct (List.find _ (structs _)).
  - match goal with |- res_bind ?r _ = _ -> _ => destruct r end; simpl; try discriminate.
    intros H. injection H as <-. discriminate.
  - destruct (existsb _ _); [discriminate | exact IH].
Qed.

Lemma find_field_definition_linked (fuel : nat) (identifier : string) (files : list RuneFileDescription)
    (l : UserDefinitionLink) :
  find_field_definition fuel identifier files = Ok l -> l <> NoLink.
Proof.
  destruct fuel as [|fuel]; [discriminate|]. cbn [find_field_definition].
  destruct (List.find _ _).
  - match goal with |- res_bind ?r _ = _ -> _ => destruct r end; simpl; try discriminate.
    intros H. injection H as <-. discriminate.
  - apply find_data_definition_linked.
Qed.

Lemma link_field_shape (ref : list RuneFileDescription) (fd fd' : MessageField) :
  link_field ref fd = Ok fd' ->
  unlink_field fd' = unlink_field fd /\ (forall l, In l (field_links fd') -> l <> NoLink).
Proof.
  destruct fd as [id [|p|[[p|n l0] c]|n l0] idx]; unfold link_field; cbv beta iota; intros H;
    try (injection H as <-; split; [reflexivity | intros l []]); try discriminate.
  - destruct (find_data_definition _ _ _) as [l| |] eqn:E; simpl in H; try discriminate.
    injection H as <-. split; [reflexivity|]. intros l' [<-|[]].
    eapply find_data_definition_linked. exact E.
  - destruct (find_field_definition _ _ _) as [l| |] eqn:E; simpl in H; try discriminate.
    injection H as <-. split; [reflexivity|]. intros l' [<-|[]].
    eapply find_field_definition_linked. exact E.
Qed.

Lemma link_member_shape (ref : list RuneFileDescription) (md md' : StructMember) :
  link_member ref md = Ok md' ->
  unlink_member md' = unlink_member md /\ (forall l, In l (member_links md') -> l <> NoLink).
Proof.
  destruct md as [id [p|[[p|n l0] c]|n l0] idx]; unfold link_member; cbv beta iota; intros H;
    try (injection H as <-; split; [reflexivity | intros l []]); try discriminate.
  - destruct (find_data_definition _ _ _) as [l| |] eqn:E; simpl in H; try discriminate.
    injection H as <-. split; [reflexivity|]. intros l' [<-|[]].
    eapply find_data_definition_linked. exact E.
  - destruct (find_data_definition _ _ _) as [l| |] eqn:E; simpl in H; try discriminate.
    injection H as <-. split; [reflexivity|]. intros l' [<-|[]].
    eapply find_data_definition_linked. exact E.
Qed.

Lemma res_map_ok_all {A} (f : A -> Result A) (l l' : list A) (x : A) :
  res_map f l = Ok l' -> In x l -> exists y, f x = Ok y.
Proof.
  revert l'. induction l as [|z l IH]; intros l' H Hx; [destruct Hx|]. simpl in H.
  destruct (f z) as [z'| |] eqn:E; simpl in H; try discriminate.
  destruct (res_map f l) as [r| |] eqn:Er; simpl in H; try discriminate.
  destruct Hx as [<-|Hx]; [eauto | eapply IH; eauto].
Qed.

(** One file of [link_user_definitions]. *)
Lemma link_file_shape (ref : list RuneFileDescription) (file file' : RuneFileDescription) :
  (let d := definitions file in
   let* ms := res_map (fun m =>
                let* fs := res_map (link_field ref) (message_fields m) in
                Ok (mkMessage (message_name m) fs (message_reserved m))) (messages d) in
   let* ss := res_map (fun s =>
                let* mems := res_map (link_member ref) (struct_members s) in
                Ok (mkStruct (struct_name s) mems (struct_reserved s))) (structs d) in
   Ok (set_definitions file (with_messages_structs d ms ss))) = Ok file' ->
  unlink_file file' = unlink_file file
  /\ (forall l, In l (top_level_links [file']) -> l <> NoLink).
Proof.
  cbv zeta.
  match goal with |- res_bind (res_map ?fm _) (fun ms => res_bind (res_map ?fs _) _) = _ -> _ =>
    set (FM := fm); set (FS := fs) end.
  destruct (res_map FM (messages (definitions file))) as [ms| |] eqn:Em; simpl; try discriminate.
  destruct (res_map FS (structs (definitions file))) as [ss| |] eqn:Es; simpl; try discriminate.
  intros H. injection H as <-.
  assert (HM : forall m m', FM m = Ok m' ->
            message_name m' = message_name m /\ message_reserved m' = message_reserved m
            /\ map unlink_field (message_fields m') = map unlink_field (message_fields m)
            /\ forall fd', In fd' (message_fields m') -> forall l, In l (field_links fd') -> l <> NoLink).
  { intros m m' Hm. unfold FM in Hm.
    destruct (res_map (link_field ref) (message_fields m)) as [fs| |] eqn:Ef; simpl in Hm; try discriminate.
    injection Hm as <-. simpl. split; [reflexivity|]. split; [reflexivity|]. split.
    - apply (res_map_map (link_field ref) unlink_field _ _); [|exact Ef].
      intros x y Hxy. apply (link_field_shape ref x y Hxy).
    - intros fd' Hfd'. destruct (res_map_In _ _ _ fd' Ef Hfd') as [fd [_ Hfd]].
      apply (link_field_shape ref fd fd' Hfd). }
  assert (HS : forall s s', FS s = Ok s' ->
            struct_name s' = struct_name s /\ struct_reserved s' = struct_reserved s
            /\ map unlink_member (struct_members s') = map unlink_member (struct_members s)
            /\ forall md', In md' (struct_members s') -> forall l, In l (member_links md') -> l <> NoLink).
  { intros s s' Hs. unfold FS in Hs.
    destruct (res_map (link_member ref) (struct_members s)) as [mems| |] eqn:Ef; simpl in Hs; try discriminate.
    injection Hs as <-. simpl. split; [reflexivity|]. split; [reflexivity|]. split.
    - apply (res_map_map (link_member ref) unlink_member _ _); [|exact Ef].
      intros x y Hxy. apply (link_member_shape ref x y Hxy).
    - intros md' Hmd'. destruct (res_map_In _ _ _ md' Ef Hmd') as [md [_ Hmd]].
      apply (link_member_shape ref md md' Hmd). }
  split.
  - unfold unlink_file, set_definitions, with_messages_structs. simpl. f_equal. f_equal.
    + apply (res_map_map FM (fun m => mkMessage (message_name m) (map unlink_field (message_fields m))
                                      (message_reserved m)) _ _); [|exact Em].
      intros m m' Hm. destruct (HM m m' Hm) as [-> [-> [-> _]]]. reflexivity.
    + apply (res_map_map FS (fun s => mkStruct (struct_name s) (map unlink_member (struct_members s))
                                      (struct_reserved s)) _ _); [|exact Es].
      intros s s' Hs. destruct (HS s s' Hs) as [-> [-> [-> _]]]. reflexivity.
  - intros l Hl. unfold top_level_links in Hl. simpl in Hl. rewrite app_nil_r in Hl.
    apply in_app_iff in Hl as [Hl|Hl].
    + apply in_flat_map in Hl as [m' [Hm' Hl]]. apply in_flat_map in Hl as [fd' [Hfd' Hl]].
      destruct (res_map_In _ _ _ m' Em Hm') as [m [_ Hm]].
      exact (proj2 (proj2 (proj2 (HM m m' Hm))) fd' Hfd' l Hl).
    + apply in_flat_map in Hl as [s' [Hs' Hl]]. apply in_flat_map in Hl as [md' [Hmd' Hl]].
      destruct (res_map_In _ _ _ s' Es Hs') as [s [_ Hs]].
      exact (proj2 (proj2 (proj2 (HS s s' Hs))) md' Hmd' l Hl).
Qed.

(** X: when [link_user_definitions] succeeds it changes nothing but the
    links of message fields and struct members (forgetting them gives back
    the input), and every link it leaves in a message field or struct
    member, element types of arrays included, is resolved (no [NoLink]). *)
Theorem link_user_definitions_shape (files out : list RuneFileDescription) :
  link_user_definitions files = Ok out ->
  map unlink_file out = map unlink_file files
  /\ (forall l, In l (top_level_links out) -> l <> NoLink).
Proof.
  unfold link_user_definitions. cbv zeta. intros H. split.
  - eapply res_map_map; [|exact H]. intros f f' Hf. apply (link_file_shape files f f' Hf).
  - intros l Hl. unfold top_level_links in Hl. apply in_flat_map in Hl as [f' [Hf' Hl]].
    destruct (res_map_In _ _ _ f' H Hf') as [f [_ Hf]].
    apply (proj2 (link_file_shape files f f' Hf)). unfold top_level_links. simpl.
    rewrite app_nil_r. exact Hl.
Qed.

Lemma link_user_definitions_shape_witness :
  let out := match link_user_definitions nested_array_of_enum with Ok o => o | _ => [] end in
  length (top_level_links out) = 2%nat
  /\ map unlink_file out = map unlink_file nested_array_of_enum
  /\ (forall l, In l (top_level_links out) -> l <> NoLink).
Proof.
  split; [vm_compute; reflexivity|].
  apply link_user_definitions_shape. vm_compute. reflexivity.
Defined.

(** X: [link_user_definitions] never succeeds on files holding a message
    field of the empty type. *)
Theorem link_user_definitions_empty_field (files out : list RuneFileDescription)
    (f : RuneFileDescription) (m : MessageDefinition) (fd : MessageField) :
  In f files -> In m (messages (definitions f)) -> In fd (message_fields m) ->
  field_data_type fd = FT_Empty ->
  link_user_definitions files <> Ok out.
Proof.
  intros Hf Hm Hfd Hty H. unfold link_user_definitions in H. cbv zeta in H.
  destruct (res_map_ok_all _ _ _ f H Hf) as [f' Hf'].
  destruct (res_map (fun m => let* fs := res_map (link_field files) (message_fields m) in
                              Ok (mkMessage (message_name m) fs (message_reserved m)))
                    (messages (definitions f))) as [ms| |] eqn:Em; simpl in Hf'; try discriminate.
  destruct (res_map_ok_all _ _ _ m Em Hm) as [m' Hm'].
  destruct (res_map (link_field files) (message_fields m)) as [fs| |] eqn:Ef; simpl in Hm'; try discriminate.
  destruct (res_map_ok_all _ _ _ fd Ef Hfd) as [fd' Hfd'].
  destruct fd as [id t idx]. simpl in Hty. subst t. discriminate.
Qed.

Lemma link_user_definitions_empty_field_witness :
  link_user_definitions empty_field_message <> Ok [].
Proof.
  apply (link_user_definitions_empty_field empty_field_message []
           (rune_file "a" [] [] [] [] no_extensions [mkMessage "M" [mkField "e" FT_Empty (Numeric 0)] []] [])
           (mkMessage "M" [mkField "e" FT_Empty (Numeric 0)] []) (mkField "e" FT_Empty (Numeric 0)));
    simpl; auto.
Defined.

(** ** The Extension Merger *)

Lemma NoDup_map_lookup {A B} (g : A -> B) (l : list A) (i j : nat) (a b : A) :
  NoDup (map g l) -> l !! i = Some a -> l !! j = Some b -> g a = g b -> i = j.
Proof.
  revert i j. induction l as [|x l IH]; intros [|i] [|j] Hnd Ha Hb Hg; simpl in *; try discriminate;
    auto; apply NoDup_cons in Hnd as [Hx Hnd].
  - injection Ha as <-. exfalso. apply Hx, list_elem_of_In. rewrite Hg. apply in_map. eapply lookup_In; eauto.
  - injection Hb as <-. exfalso. apply Hx, list_elem_of_In. rewrite <- Hg. apply in_map. eapply lookup_In; eauto.
  - f_equal. eauto.
Qed.

Lemma index_lt {A} (l : list A) (i : nat) : (i < length l)%nat -> exists x, index l i = Ok x /\ l !! i = Some x.
Proof.
  intros H. unfold index. destruct (l !! i) as [x|] eqn:E; [eauto|].
  apply lookup_ge_None in E. lia.
Qed.

Section DistinctNames.
Context {A B : Type} (name : A -> string).

Lemma merge_z_distinct (check : A -> A -> Result unit) (combine : A -> A -> A) (l : list (Ext A)) :
  NoDup (map (fun e => name e.2) l) ->
  forall k i z, (i < z)%nat -> (i < length l)%nat ->
  merge_z name check combine k i z (length l) l = Ok (l, length l).
Proof.
  intros Hnd k. induction k as [|k IH]; intros i z Hiz Hi; simpl; [reflexivity|].
  destruct (decide (z < length l)%nat) as [Hz|Hz]; [|reflexivity].
  destruct (index_lt l i Hi) as [ei [-> Hei]]. destruct (index_lt l z Hz) as [ez [-> Hez]]. simpl.
  destruct (String.eqb (name ei.2) (name ez.2)) eqn:E.
  - apply String.eqb_eq in E. pose proof (NoDup_map_lookup _ _ _ _ _ _ Hnd Hei Hez E). lia.
  - apply IH; lia.
Qed.

Lemma merge_i_distinct (check : A -> A -> Result unit) (combine : A -> A -> A) (l : list (Ext A)) :
  NoDup (map (fun e => name e.2) l) ->
  forall k i, merge_i name check combine k i (length l) l = Ok l.
Proof.
  intros Hnd k. induction k as [|k IH]; intros i; simpl; [reflexivity|].
  destruct (decide (i < length l - 1)%nat); [|reflexivity].
  rewrite merge_z_distinct by (auto; lia). simpl. apply IH.
Qed.

Lemma cross_z_distinct (collides : A -> A -> bool) (on_collision : nat -> list (Ext B) -> Result unit)
    (combine : B -> B -> B) (l1 : list (Ext A)) (l2 : list (Ext B)) :
  NoDup (map (fun e => name e.2) l1) ->
  forall k i z, (i < z)%nat -> (i < length l1)%nat ->
  cross_z name collides on_collision combine k i z (length l1) l1 l2 = Ok (l2, length l1).
Proof.
  intros Hnd k. induction k as [|k IH]; intros i z Hiz Hi; simpl; [reflexivity|].
  destruct (decide (z < length l1)%nat) as [Hz|Hz]; [|reflexivity].
  destruct (index_lt l1 i Hi) as [ei [-> Hei]]. destruct (index_lt l1 z Hz) as [ez [-> Hez]]. simpl.
  destruct (String.eqb (name ei.2) (name ez.2)) eqn:E.
  - apply String.eqb_eq in E. pose proof (NoDup_map_lookup _ _ _ _ _ _ Hnd Hei Hez E). lia.
  - apply IH; lia.
Qed.

Lemma cross_i_distinct (collides : A -> A -> bool) (on_collision : nat -> list (Ext B) -> Result unit)
    (combine : B -> B -> B) (l1 : list (Ext A)) (l2 : list (Ext B)) :
  NoDup (map (fun e => name e.2) l1) ->
  forall k i, cross_i name collides on_collision combine k i (length l1) l1 l2 = Ok l2.
Proof.
  intros Hnd k. induction k as [|k IH]; intros i; simpl; [reflexivity|].
  destruct (decide (i < length l1 - 1)%nat); [|reflexivity].
  rewrite cross_z_distinct by (auto; lia). simpl. apply IH.
Qed.

(** X: fragments whose names are pairwise distinct are left as they are by
    both merge loops of [parse_extensions]: the same-list loop (bitfields,
    enums) returns its list, the cross-list loop (messages, structs)
    returns its second list, whatever the checks and combinations. *)
Theorem merge_distinct_names (check : A -> A -> Result unit) (combine : A -> A -> A)
    (collides : A -> A -> bool) (on_collision : nat -> list (Ext B) -> Result unit)
    (combine' : B -> B -> B) (l : list (Ext A)) (l2 : list (Ext B)) :
  NoDup (map (fun e => name e.2) l) ->
  merge_same name check combine l = Ok l /\ merge_cross name collides on_collision combine' l l2 = Ok l2.
Proof.
  intros Hnd. unfold merge_same, merge_cross. split.
  - destruct (decide _); [apply merge_i_distinct; exact Hnd | reflexivity].
  - destruct (decide _); [apply cross_i_distinct; exact Hnd | reflexivity].
Qed.
End DistinctNames.

Lemma merge_distinct_names_witness :
  merge_same bitfield_name bitfield_check bitfield_combine two_bitfield_fragments = Ok two_bitfield_fragments
  /\ merge_cross bitfield_name (fun _ _ => true) (fun _ _ => Ok tt) struct_combine two_bitfield_fragments []
     = Ok [].
Proof.
  apply merge_distinct_names. apply (bool_decide_unpack _). vm_compute. exact I.
Defined.

Lemma append_into_file_unmatched {D} (get : Definitions -> list D)
    (set : Definitions -> list D -> list string -> Definitions)
    (apply : D -> Result (option D)) (ext_files : list string) (file : RuneFileDescription) :
  (forall d, set d (get d) (includes d) = d) ->
  (forall x, In x (get (definitions file)) -> apply x = Ok None) ->
  append_into_file get set apply ext_files file = Ok file.
Proof.
  intros Hset Hx. unfold append_into_file.
  assert (forall l acc, (forall x, In x l -> apply x = Ok None) ->
            res_fold (fun acc x =>
              let* r := apply x in
              match r with
              | None => Ok (acc.1 ++ [x], acc.2)
              | Some x' => Ok (acc.1 ++ [x'], acc.2 ++ ext_files)
              end) acc l = Ok (acc.1 ++ l, acc.2)) as G.
  { induction l as [|x l IH]; intros acc H; simpl.
    - rewrite app_nil_r. destruct acc. reflexivity.
    - rewrite (H x (or_introl eq_refl)). simpl. rewrite IH by (intros y Hy; apply H; right; exact Hy).
      simpl. rewrite <- app_assoc. reflexivity. }
  rewrite G by exact Hx. simpl. rewrite Hset. destruct file. reflexivity.
Qed.

Lemma res_map_id {A} (f : A -> Result A) (l : list A) :
  (forall x, In x l -> f x = Ok x) -> res_map f l = Ok l.
Proof.
  induction l as [|x l IH]; intros H; simpl; [reflexivity|].
  rewrite (H x (or_introl eq_refl)). simpl. rewrite IH by (intros y Hy; apply H; right; exact Hy).
  reflexivity.
Qed.

(** X: appending an extension whose name no file declares (as a bitfield,
    enum, message or struct respectively) changes nothing and reports no
    error: the fragment is silently dropped. *)
Theorem append_undeclared_dropped (files : list RuneFileDescription) (fs : list string) :
  (forall e, (forall f b, In f files -> In b (bitfields (definitions f)) -> bitfield_name b <> bitfield_name e) ->
     append_all bitfields with_bitfields_includes append_bitfield [(fs, e)] files = Ok files)
  /\ (forall e, (forall f x, In f files -> In x (enums (definitions f)) -> enum_name x <> enum_name e) ->
     append_all enums with_enums_includes append_enum [(fs, e)] files = Ok files)
  /\ (forall e, (forall f x, In f files -> In x (messages (definitions f)) -> message_name x <> message_name e) ->
     append_all messages with_messages_includes append_message [(fs, e)] files = Ok files)
  /\ (forall e, (forall f x, In f files -> In x (structs (definitions f)) -> struct_name x <> struct_name e) ->
     append_all structs with_structs_includes append_struct [(fs, e)] files = Ok files).
Proof.
  unfold append_all. simpl.
  repeat split; intros e H;
    (replace (Ok files) with (res_bind (Ok files) (fun fs' => @Ok (list RuneFileDescription) fs'))
       by reflexivity); f_equal; apply res_map_id; intros f Hf;
    (apply append_into_file_unmatched; [intros [] ; reflexivity|]);
    intros x Hx; specialize (H f x Hf Hx).
  - unfold append_bitfield. apply String.eqb_neq in H. rewrite H. reflexivity.
  - unfold append_enum. apply String.eqb_neq in H. rewrite H. reflexivity.
  - unfold append_message. apply String.eqb_neq in H. rewrite H. reflexivity.
  - unfold append_struct. apply String.eqb_neq in H. rewrite H. reflexivity.
Qed.

Lemma append_undeclared_dropped_witness :
  append_all structs with_structs_includes append_struct
    [(["b"], mkStruct "T" [mkMember "y" (MT_Primitive U8) (Numeric 1)] [])] extend_with_user_type
  = Ok extend_with_user_type.
Proof.
  apply (append_undeclared_dropped extend_with_user_type ["b"]).
  intros f x [<-|[]] [<-|[]]. discriminate.
Defined.

(** ** The Size Estimator *)

(** X: [optimal_encoded_data_size] fails (with [InvalidEncodedSize]) exactly
    from [u32::MAX] on, never panics, and otherwise gives 0 for an empty
    payload and an encoded size between the payload and the payload plus 5
    (a 1-byte header and at most a 4-byte length). *)
Theorem optimal_encoded_data_size_bounds (s : N) :
  (optimal_encoded_data_size s = Err InvalidEncodedSize <-> (4294967295 <= s)%N)
  /\ optimal_encoded_data_size s <> Panic
  /\ (forall r, optimal_encoded_data_size s = Ok r ->
        (r = 0 <-> s = 0)%N /\ (s <= r <= s + 5)%N).
Proof.
  unfold optimal_encoded_data_size. cbv zeta.
  destruct (N.eqb_spec s 0) as [->|H0]; simpl.
  - split; [split; [discriminate | lia]|]. split; [discriminate|].
    intros r Hr. injection Hr as <-. lia.
  - destruct ((s =? 1) || (s =? 2) || (s =? 4) || (s =? 8))%N eqn:E.
    + repeat rewrite orb_true_iff in E. rewrite !N.eqb_eq in E.
      split; [split; [discriminate | lia]|]. split; [discriminate|].
      intros r Hr. injection Hr as <-. lia.
    + destruct (N.ltb_spec s 255), (N.ltb_spec s 65535), (N.ltb_spec s 4294967295);
        (split; [split; [try discriminate; lia | try lia; reflexivity]|]);
        (split; [discriminate|]); intros r Hr; try discriminate; injection Hr as <-; lia.
Qed.

Lemma optimal_loop_shift (l : list MessageField) (t : N) :
  optimal_loop l t = (let* a := optimal_loop l 0 in Ok (t + a)%N).
Proof.
  revert t. induction l as [|f l IH]; intros t; simpl.
  - f_equal. lia.
  - destruct (full_encoded_size false f) as [[v|]| |]; simpl; try reflexivity.
    destruct (optimal_encoded_data_size v) as [s| |]; simpl; try reflexivity.
    rewrite (IH (t + s)%N), (IH (0 + s)%N).
    destruct (optimal_loop l 0) as [a| |]; simpl; try reflexivity. f_equal. lia.
Qed.

Lemma optimal_loop_app (l1 l2 : list MessageField) (t : N) :
  optimal_loop (l1 ++ l2) t = (let* a := optimal_loop l1 t in optimal_loop l2 a).
Proof.
  revert t. induction l1 as [|f l1 IH]; intros t; simpl; [reflexivity|].
  destruct (full_encoded_size false f) as [[v|]| |]; simpl; try reflexivity.
  destruct (optimal_encoded_data_size v); simpl; [apply IH | reflexivity | reflexivity].
Qed.

(** X: the optimal size of a message is additive over its fields: the
    message with fields [fs1 ++ fs2] has the sum of the sizes of the
    messages with fields [fs1] and with fields [fs2], and fails exactly as
    the first of these that fails. *)
Theorem optimal_full_encoded_size_app (n : string) (fs1 fs2 : list MessageField) (r : list FieldIndex) :
  optimal_full_encoded_size (mkMessage n (fs1 ++ fs2) r)
  = (let* a := optimal_full_encoded_size (mkMessage n fs1 r) in
     let* b := optimal_full_encoded_size (mkMessage n fs2 r) in
     Ok (a + b)%N).
Proof.
  rewrite !optimal_unfold, optimal_loop_app.
  destruct (optimal_loop fs1 0) as [a| |]; simpl; try reflexivity.
  apply optimal_loop_shift.
Qed.

Lemma largest_fold_ge (l : list MessageField) (a : Z) :
  a <= fold_left (fun largest f =>
         if FieldIndex_value (field_index f) >? largest then FieldIndex_value (field_index f) else largest) l a
  /\ forall g, In g l -> FieldIndex_value (field_index g) <=
       fold_left (fun largest f =>
         if FieldIndex_value (field_index f) >? largest then FieldIndex_value (field_index f) else largest) l a.
Proof.
  revert a. induction l as [|f l IH]; intros a; simpl; [split; [lia | intros g []]|].
  rewrite Z.gtb_ltb.
  destruct (Z.ltb_spec a (FieldIndex_value (field_index f))) as [E|E];
    match goal with |- context [fold_left ?h l ?b] => destruct (IH b) as [H1 H2] end;
    (split; [lia|]); intros g [<-|Hg]; try lia; apply H2; exact Hg.
Qed.

Lemma largest_fold_stable (l : list MessageField) (a : Z) :
  (forall g, In g l -> FieldIndex_value (field_index g) <= a) ->
  fold_left (fun largest f =>
    if FieldIndex_value (field_index f) >? largest then FieldIndex_value (field_index f) else largest) l a = a.
Proof.
  revert a. induction l as [|f l IH]; intros a H; simpl; [reflexivity|].
  rewrite Z.gtb_ltb. replace (a <? FieldIndex_value (field_index f)) with false.
  - apply IH. intros g Hg. apply H. right. exact Hg.
  - symmetry. apply Z.ltb_ge. apply H. left. reflexivity.
Qed.

(** X: a message none of whose fields has index 0 (nor the verifier alias)
    has no worst-case size: [worst_case_encoded_size] gives [None], the
    scan for index 0 finding nothing. *)
Theorem worst_case_no_index_zero (n : string) (fields : list MessageField) (r : list FieldIndex) :
  (forall f, In f fields -> FieldIndex_value (field_index f) <> 0) ->
  worst_case_encoded_size (mkMessage n fields r) = Ok None.
Proof.
  intros H. rewrite worst_unfold.
  assert (0 <= largest_field_index fields) as Hl by apply largest_fold_ge.
  replace (Z.to_nat (largest_field_index fields + 1)) with (S (Z.to_nat (largest_field_index fields))) by lia.
  simpl. replace (field_at 0 fields) with (@None MessageField); [reflexivity|].
  symmetry. apply find_none_intro. intros f Hf. apply Z.eqb_neq. apply H, Hf.
Qed.

Lemma worst_case_no_index_zero_witness :
  worst_case_encoded_size (mkMessage "M" [mkField "a" (FT_Primitive U8) (Numeric 1)] []) = Ok None.
Proof. apply worst_case_no_index_zero. intros f [<-|[]]. simpl. lia. Defined.

Lemma find_app_first {A} (p : A -> bool) (l1 l2 : list A) :
  List.find p (l1 ++ l2) = match List.find p l1 with Some x => Some x | None => List.find p l2 end.
Proof. induction l1 as [|x l1 IH]; simpl; [reflexivity|]. destruct (p x); [reflexivity | exact IH]. Qed.

Lemma worst_loop_ext (fs fs' : list MessageField) (k : nat) (i : Z) (t : N) :
  (forall j, field_at j fs = field_at j fs') -> worst_loop fs k i t = worst_loop fs' k i t.
Proof.
  intros H. revert i t. induction k as [|k IH]; intros i t; simpl; [reflexivity|].
  rewrite H. destruct (option_map _ _) as [res|]; [|reflexivity].
  destruct res as [[v|]| |]; simpl; auto.
Qed.

(** X: appending fields whose indexes are all already taken does not change
    a message's worst-case size: the code only ever reads the first field
    at each index, and the largest index stays the same. *)
Theorem worst_case_duplicate_indexes (n : string) (fs1 fs2 : list MessageField) (r : list FieldIndex) :
  (forall f, In f fs2 -> exists g, In g fs1 /\ FieldIndex_value (field_index g) = FieldIndex_value (field_index f)) ->
  worst_case_encoded_size (mkMessage n (fs1 ++ fs2) r) = worst_case_encoded_size (mkMessage n fs1 r).
Proof.
  intros H. rewrite !worst_unfold.
  assert (largest_field_index (fs1 ++ fs2) = largest_field_index fs1) as ->.
  { unfold largest_field_index. rewrite fold_left_app. apply largest_fold_stable.
    intros f Hf. destruct (H f Hf) as [g [Hg Heq]]. rewrite <- Heq. apply largest_fold_ge. exact Hg. }
  apply worst_loop_ext. intros j. unfold field_at. rewrite find_app_first.
  destruct (List.find _ fs1) as [x|] eqn:E; [reflexivity|].
  apply find_none_intro. intros f Hf. destruct (H f Hf) as [g [Hg Heq]].
  pose proof (find_none _ _ E g Hg) as Hgj. simpl in Hgj. rewrite <- Heq. exact Hgj.
Qed.

Lemma worst_case_duplicate_indexes_witness :
  worst_case_encoded_size (mkMessage "G" (gap_free_fields ++ [mkField "d" (FT_Primitive U64) (Numeric 1)]) [])
  = worst_case_encoded_size (mkMessage "G" gap_free_fields []).
Proof.
  apply worst_case_duplicate_indexes. intros f [<-|[]].
  exists (mkField "c" (FT_Primitive U16) (Numeric 1)). split; [right; right; left; reflexivity | reflexivity].
Defined.

Lemma ArraySize_value_not_panic (c : ArraySize) (k : N -> Result N) :
  (forall n, k n <> Panic) -> res_bind (ArraySize_value c) k <> Panic.
Proof.
  intros Hk. destruct c as [v sy|d]; cbn [ArraySize_value res_bind]; [apply Hk|].
  destruct (define_value_of d) as [|[c|b|v sy|v sy|f]]; cbn [res_bind]; try discriminate; apply Hk.
Qed.

Lemma optimal_encoded_data_size_not_panic (s : N) : optimal_encoded_data_size s <> Panic.
Proof.
  unfold optimal_encoded_data_size. cbv zeta.
  repeat match goal with |- context [if ?c then _ else _] => destruct c end; discriminate.
Qed.

Lemma optimal_loop_not_panic (fields : list MessageField) (t : N) :
  Forall (fun f => (forall wc, full_encoded_size wc f <> Panic) /\ full_encoded_size false f <> Ok None) fields ->
  optimal_loop fields t <> Panic.
Proof.
  intros HF. revert t. induction HF as [|f l [Hp Hn] HF IH]; intros t; simpl; [discriminate|].
  specialize (Hp false).
  destruct (full_encoded_size false f) as [[v|]| |]; simpl; try discriminate; try contradiction.
  pose proof (optimal_encoded_data_size_not_panic v).
  destruct (optimal_encoded_data_size v); simpl; [apply IH | discriminate | contradiction].
Qed.

Lemma worst_loop_not_panic (fields : list MessageField) (k : nat) (i : Z) (t : N) :
  Forall (fun f => forall wc, full_encoded_size wc f <> Panic) fields ->
  worst_loop fields k i t <> Panic.
Proof.
  intros HF. revert i t. induction k as [|k IH]; intros i t; simpl; [discriminate|].
  destruct (field_at i fields) as [f|] eqn:E; simpl; [|discriminate].
  apply field_at_In in E. rewrite List.Forall_forall in HF. specialize (HF f E true).
  destruct (full_encoded_size true f) as [[v|]| |]; simpl; try discriminate; try contradiction.
  apply IH.
Qed.

(** The size functions of a field, a message, a struct, a struct member and
    an array never reach a Rust panic; a field's optimal size is never
    [None], so [optimal_full_encoded_size]'s [value.unwrap()] always holds. *)
Fixpoint field_size_not_panic (f : MessageField) :
  (forall wc, full_encoded_size wc f <> Panic) /\ full_encoded_size false f <> Ok None
with message_size_not_panic (m : MessageDefinition) :
  optimal_full_encoded_size m <> Panic /\ worst_case_encoded_size m <> Panic
with struct_size_not_panic (s : StructDefinition) : flat_size s <> Panic
with member_size_not_panic (m : StructMember) : member_size m <> Panic
with array_size_not_panic (a : Array) : array_byte_size a <> Panic.
Proof.
  - destruct f as [id dt ix]. destruct dt as [|p|a|tn l].
    + clear. split; [intros; discriminate | discriminate].
    + clear. split; [intros; discriminate | discriminate].
    + pose proof (array_size_not_panic a) as Ha.
      clear - Ha. cbn [full_encoded_size].
      destruct (array_byte_size a); cbn [res_bind];
        (split; [intros _|]); try discriminate; contradiction.
    + destruct l as [|b|e|m|s].
      * clear. split; [intros; discriminate | discriminate].
      * clear. split; [intros; discriminate | discriminate].
      * clear. split; [intros; discriminate | discriminate].
      * pose proof (message_size_not_panic m) as [Ho Hw].
        clear - Ho Hw. cbn [full_encoded_size].
        split; [intros [|]; [exact Hw|]|];
          destruct (optimal_full_encoded_size m); cbn [res_bind]; try discriminate; contradiction.
      * pose proof (struct_size_not_panic s) as Hs.
        clear - Hs. cbn [full_encoded_size].
        destruct (flat_size s); cbn [res_bind];
          (split; [intros _|]); try discriminate; contradiction.
  - destruct m as [n fields r].
    assert (HF : Forall (fun f => (forall wc, full_encoded_size wc f <> Panic)
                                  /\ full_encoded_size false f <> Ok None) fields).
    { exact ((fix go (l : list MessageField) :=
                match l return Forall (fun f => (forall wc, full_encoded_size wc f <> Panic)
                                               /\ full_encoded_size false f <> Ok None) l with
                | [] => List.Forall_nil _
                | f :: l' => @List.Forall_cons _ _ f l' (field_size_not_panic f) (go l')
                end) fields). }
    clear - HF. split.
    + rewrite optimal_unfold. apply optimal_loop_not_panic. exact HF.
    + rewrite worst_unfold. apply worst_loop_not_panic.
      eapply Forall_impl; [exact HF|]. intros f [Hf _]. exact Hf.
  - destruct s as [n ms r].
    assert (HF : Forall (fun m => member_size m <> Panic) ms).
    { exact ((fix go (l : list StructMember) :=
                match l return Forall (fun m => member_size m <> Panic) l with
                | [] => List.Forall_nil _
                | m :: l' => @List.Forall_cons _ _ m l' (member_size_not_panic m) (go l')
                end) ms). }
    clear - HF. cbn [flat_size]. generalize 0%N.
    induction HF as [|m l Hm HF IH]; intros t; [discriminate|].
    destruct (member_size m); cbn [res_bind]; [apply IH | discriminate | contradiction].
  - destruct m as [id t ix]. destruct t as [p|a|tn l].
    + clear. discriminate.
    + exact (array_size_not_panic a).
    + destruct l as [|b|e|m|s]; try (clear; discriminate).
      exact (struct_size_not_panic s).
  - destruct a as [dt c]. destruct dt as [p|tn l].
    + clear. cbn. apply ArraySize_value_not_panic. discriminate.
    + destruct l as [|b|e|m|s]; try (clear; cbn; try apply ArraySize_value_not_panic; discriminate).
      pose proof (struct_size_not_panic s) as Hs. clear - Hs. cbn [array_byte_size array_type_size].
      destruct (flat_size s); cbn [res_bind]; [apply ArraySize_value_not_panic; discriminate | discriminate | contradiction].
Qed.

(** X: computing a message's optimal size or its worst-case size never
    panics: every field's optimal size is a number, so the [unwrap] in
    [optimal_full_encoded_size] never fails. *)
Theorem message_sizes_never_panic (m : MessageDefinition) :
  optimal_full_encoded_size m <> Panic /\ worst_case_encoded_size m <> Panic
  /\ forall f, In f (message_fields m) -> full_encoded_size false f <> Ok None.
Proof.
  split; [apply message_size_not_panic|]. split; [apply message_size_not_panic|].
  intros f _. apply field_size_not_panic.
Qed.

(** ** File naming *)

Lemma string_append_cons (x : Ascii.ascii) (a b : string) :
  String.append (String x a) b = String x (String.append a b).
Proof. reflexivity. Qed.

Lemma string_append_assoc (a b c : string) :
  String.append (String.append a b) c = String.append a (String.append b c).
Proof. induction a as [|x a IH]; [reflexivity|]. rewrite !string_append_cons, IH. reflexivity. Qed.

Lemma string_append_nil (a : string) : String.append a EmptyString = a.
Proof. induction a as [|x a IH]; [reflexivity|]. rewrite string_append_cons, IH. reflexivity. Qed.

Lemma str_rev_app (a b : string) :
  str_rev (String.append a b) = String.append (str_rev b) (str_rev a).
Proof.
  induction a as [|x a IH].
  - cbn [str_rev]. rewrite string_append_nil. reflexivity.
  - rewrite string_append_cons. cbn [str_rev]. rewrite IH, string_append_assoc. reflexivity.
Qed.

Lemma str_rev_involutive (a : string) : str_rev (str_rev a) = a.
Proof. induction a as [|x a IH]; cbn [str_rev]; [reflexivity|]. rewrite str_rev_app, IH. reflexivity. Qed.

Lemma strip_prefix_app (p s : string) : strip_prefix p (String.append p s) = Some s.
Proof. induction p as [|c p IH]; simpl; [reflexivity|]. rewrite Ascii.eqb_refl. exact IH. Qed.

Lemma strip_prefix_Some (p s t : string) : strip_prefix p s = Some t -> s = String.append p t.
Proof.
  revert s. induction p as [|c p IH]; intros s H; simpl in *.
  - injection H as ->. reflexivity.
  - destruct s as [|d s]; [discriminate|].
    destruct (Ascii.eqb_spec c d) as [->|]; [|discriminate]. rewrite (IH s H). reflexivity.
Qed.

Lemma strip_suffix_app (x s : string) : strip_suffix x (String.append s x) = Some s.
Proof.
  unfold strip_suffix. rewrite str_rev_app, strip_prefix_app. simpl.
  rewrite str_rev_involutive. reflexivity.
Qed.

Lemma strip_suffix_Some (x s t : string) : strip_suffix x s = Some t -> s = String.append t x.
Proof.
  unfold strip_suffix. destruct (strip_prefix (str_rev x) (str_rev s)) as [u|] eqn:E; [|discriminate].
  simpl. intros H. injection H as <-. apply strip_prefix_Some in E.
  rewrite <- (str_rev_involutive s), E, str_rev_app, str_rev_involutive. reflexivity.
Qed.

(** X: [parser_rune_files] keeps a file exactly when its name ends in
    [.rune] and its path is the input path, a slash, a relative path and the
    file name; it then records that relative path and the name without
    [.rune]. *)
Theorem rune_file_identity_iff (rune_file_name source_path full_file_name relative_path name : string) :
  rune_file_identity rune_file_name source_path full_file_name = Some (relative_path, name)
  <-> full_file_name = String.append name ".rune"
      /\ rune_file_name = String.append source_path (String.append "/" (String.append relative_path full_file_name)).
Proof.
  unfold rune_file_identity. split.
  - destruct (strip_suffix ".rune" full_file_name) as [n|] eqn:E1; [|discriminate].
    destruct (strip_prefix source_path rune_file_name) as [s|] eqn:E2; [|discriminate].
    destruct (strip_prefix "/" s) as [sp|] eqn:E3; [|discriminate].
    destruct (strip_suffix full_file_name sp) as [rp|] eqn:E4; [|discriminate].
    intros H. injection H as <- <-.
    apply strip_suffix_Some in E1, E4. apply strip_prefix_Some in E2, E3.
    split; [exact E1|]. rewrite E2, E3, E4. reflexivity.
  - intros [-> ->]. rewrite strip_suffix_app, strip_prefix_app.
    rewrite strip_prefix_app, strip_suffix_app. reflexivity.
Qed.
